(** * record_manager: a fixed-size record allocator over a growable file

    Shallow embedding of
    [include/bitcoin/database/impl/record_manager.ipp]
    (libbitcoin-database) and proofs about its allocation, persistence and
    link/offset arithmetic.

    File layout handled by the manager:
<<
      [ header       ]   header_size bytes
      [ record_count ]   sizeof(Link) bytes, little endian
      [ record 0     ]   record_size bytes
      ...
>>
    The manager is a class template over the unsigned integer type [Link].
    The template parameter is represented by its width in bytes,
    [link_width = sizeof(Link)]; [size_t] and [file_offset] are 64-bit
    unsigned integers.  All arithmetic of the source is written with its
    wrap-around.  The mutex of the class only serialises callers and is
    not represented: every operation is a function from the state before
    the call to the state after it. *)

From Stdlib Require Import ZArith List Lia Bool.
From Stdlib Require Import Init.Byte Strings.Byte.
Import ListNotations.
Local Open Scope Z_scope.

(** ** Machine integers *)

(** Conversion to [size_t] (and to [file_offset], also 64 bits wide). *)
Definition to_size (z : Z) : Z := z mod 2 ^ 64.

(** ** Bytes *)

Definition Z_of_byte (b : byte) : Z := Z.of_N (Byte.to_N b).

Definition byte_of_Z (z : Z) : byte :=
  match Byte.of_N (Z.to_N (z mod 256)) with
  | Some b => b
  | None => x00
  end.

(** Little-endian serialisation of the low [n] bytes of [v]
    ([serializer::write_little_endian]). *)
Fixpoint write_little_endian (n : nat) (v : Z) : list byte :=
  match n with
  | O => []
  | S k => byte_of_Z v :: write_little_endian k (v / 256)
  end.

(** Little-endian deserialisation ([from_little_endian_unsafe]). *)
Fixpoint from_little_endian (bs : list byte) : Z :=
  match bs with
  | [] => 0
  | b :: rest => Z_of_byte b + 256 * from_little_endian rest
  end.

(** ** Outcomes

    A call either returns or stops in a fault: a failed [BITCOIN_ASSERT], a
    [std::runtime_error] thrown by the storage, an access outside of the
    mapped file, or a division by zero. *)

Inductive fault : Type :=
| assertion_failure
| runtime_error
| access_violation
| division_by_zero.

Inductive result (A : Type) : Type :=
| Ok (a : A)
| Fault (f : fault).

Arguments Ok {A} a.
Arguments Fault {A} f.

Definition bind {A B : Type} (r : result A) (k : A -> result B) : result B :=
  match r with
  | Ok a => k a
  | Fault f => Fault f
  end.

Notation "x <- r ;; k" := (bind r (fun x => k))
  (at level 61, r at next level, right associativity).
Notation "r ;;; k" := (bind r (fun _ => k))
  (at level 61, right associativity).

(** Modelled from the spec: the macro [BITCOIN_ASSERT] is declared in
    [bitcoin/utility/assert.hpp], outside of this repository's sources.  The
    specification treats it as an unconditional, fatal assertion. *)
Definition BITCOIN_ASSERT (b : bool) : result unit :=
  if b then Ok tt else Fault assertion_failure.

(** ** Growable storage and memory accessor *)

(** Modelled from the spec: the class [storage] is declared in
    [bitcoin/database/memory/storage.hpp], outside of this repository's
    sources.  A storage owns the bytes of the file; [capacity] is the
    largest size it accepts to grow to. *)
Record storage : Type := {
  bytes : list byte;
  capacity : Z
}.

(** [storage::size()]. *)
Definition size (s : storage) : Z := Z.of_nat (length (bytes s)).

(** The first [n] bytes of [l], padded with zero bytes up to length [n]. *)
Definition fit (n : nat) (l : list byte) : list byte :=
  firstn n l ++ repeat x00 (n - length l).

(** Modelled from the spec: [storage::resize(new_size)] sets the file size
    exactly, and throws when there is insufficient space. *)
Definition resize (s : storage) (new_size : Z) : result storage :=
  if new_size <=? capacity s
  then Ok {| bytes := fit (Z.to_nat new_size) (bytes s);
             capacity := capacity s |}
  else Fault runtime_error.

(** Modelled from the spec: [storage::reserve(min_size)] ensures that the
    file size is at least [min_size], growing the file if necessary, and
    returns false on failure. *)
Definition reserve (s : storage) (min_size : Z) : bool * storage :=
  if min_size <=? size s then (true, s)
  else if min_size <=? capacity s
       then (true, {| bytes := fit (Z.to_nat min_size) (bytes s);
                      capacity := capacity s |})
       else (false, s).

(** Modelled from the spec: the memory accessor ([memory.hpp]) is a
    position in the mapped file; [storage::access()] yields an accessor at
    offset 0 and [increment] advances it. *)
Record memory : Type := { buffer : Z }.

Definition access (s : storage) : memory := {| buffer := 0 |}.

Definition increment (m : memory) (offset : Z) : memory :=
  {| buffer := to_size (buffer m + offset) |}.

(** Unchecked read of [n] bytes at [address]: outside of the mapped file
    the behaviour is undefined, which is a fault here. *)
Definition load (s : storage) (address : Z) (n : nat) : result (list byte) :=
  if (0 <=? address) && (address + Z.of_nat n <=? size s)
  then Ok (firstn n (skipn (Z.to_nat address) (bytes s)))
  else Fault access_violation.

(** Unchecked write of the bytes [bs] at [address]. *)
Definition store (s : storage) (address : Z) (bs : list byte)
  : result storage :=
  if (0 <=? address) && (address + Z.of_nat (length bs) <=? size s)
  then Ok {| bytes := firstn (Z.to_nat address) (bytes s) ++ bs
                      ++ skipn (Z.to_nat address + length bs) (bytes s);
             capacity := capacity s |}
  else Fault access_violation.

(** ** The record manager *)

(** The members of [record_manager<Link>].  [file_] is a reference in the
    source: the storage outlives the manager, and a later manager can be
    constructed over the storage that an earlier one has left. *)
Record record_manager : Type := {
  file_ : storage;
  header_size_ : Z;
  record_size_ : Z;
  record_count_ : Z
}.

Definition with_file (m : record_manager) (f : storage) : record_manager :=
  {| file_ := f;
     header_size_ := header_size_ m;
     record_size_ := record_size_ m;
     record_count_ := record_count_ m |}.

Definition with_count (m : record_manager) (c : Z) : record_manager :=
  {| file_ := file_ m;
     header_size_ := header_size_ m;
     record_size_ := record_size_ m;
     record_count_ := c |}.

(** The constructor: the cached count starts at zero, whatever the file
    holds. *)
Definition construct (file : storage) (header_size record_size : Z)
  : record_manager :=
  {| file_ := file;
     header_size_ := header_size;
     record_size_ := record_size;
     record_count_ := 0 |}.

(** [count()]. *)
Definition count (m : record_manager) : Z := record_count_ m.

(** [set_count(value)]. *)
Definition set_count (m : record_manager) (value : Z)
  : result record_manager :=
  BITCOIN_ASSERT (value <=? record_count_ m) ;;;
  Ok (with_count m value).

Section Link.

(** [sizeof(Link)], in bytes. *)
Variable link_width : Z.

(** Conversion to [Link]. *)
Definition to_link (z : Z) : Z := z mod 2 ^ (8 * link_width).

(** [link_to_position(link)]: [sizeof(Link) + link * record_size_], in
    [size_t] arithmetic. *)
Definition link_to_position (m : record_manager) (link : Z) : Z :=
  to_size (link_width + to_size (link * record_size_ m)).

(** [position_to_link(position)]:
    [(position - sizeof(Link)) / record_size_], converted to [Link]. *)
Definition position_to_link (m : record_manager) (position : Z) : result Z :=
  if record_size_ m =? 0 then Fault division_by_zero
  else Ok (to_link (to_size (position - link_width) / record_size_ m)).

(** [read_count()]. *)
Definition read_count (m : record_manager) : result record_manager :=
  BITCOIN_ASSERT (to_size (header_size_ m + link_width) <=? size (file_ m)) ;;;
  let memory := access (file_ m) in
  let count_address := buffer memory + header_size_ m in
  raw <- load (file_ m) count_address (Z.to_nat link_width) ;;
  Ok (with_count m (from_little_endian raw)).

(** [write_count()]. *)
Definition write_count (m : record_manager) : result record_manager :=
  BITCOIN_ASSERT (to_size (header_size_ m + link_width) <=? size (file_ m)) ;;;
  let memory := access (file_ m) in
  let payload_size_address := buffer memory + header_size_ m in
  f <- store (file_ m) payload_size_address
         (write_little_endian (Z.to_nat link_width) (record_count_ m)) ;;
  Ok (with_file m f).

(** [create()]. *)
Definition create (m : record_manager) : result (bool * record_manager) :=
  if negb (record_count_ m =? 0) then Ok (false, m)
  else
    f <- resize (file_ m)
           (to_size (header_size_ m + link_to_position m (record_count_ m))) ;;
    m' <- write_count (with_file m f) ;;
    Ok (true, m').

(** [start()]. *)
Definition start (m : record_manager) : result (bool * record_manager) :=
  m' <- read_count m ;;
  let minimum :=
    to_size (header_size_ m' + link_to_position m' (record_count_ m')) in
  Ok (minimum <=? size (file_ m'), m').

(** [commit()]. *)
Definition commit (m : record_manager) : result record_manager :=
  write_count m.

(** [allocate(count)]: the sum [record_count_ + count] is computed in
    [size_t] and converted to [Link] when it is passed to
    [link_to_position]; [record_count_ += count] converts the same sum back
    to [Link]. *)
Definition allocate (m : record_manager) (count : Z) : Z * record_manager :=
  let next_record_index := record_count_ m in
  let position :=
    link_to_position m (to_link (to_size (record_count_ m + count))) in
  let required_size := to_size (header_size_ m + position) in
  let (reserved, f) := reserve (file_ m) required_size in
  if negb reserved then (0, with_file m f)
  else (next_record_index,
        with_count (with_file m f)
                   (to_link (to_size (record_count_ m + count)))).

(** The size that [allocate(count)] asks the storage to reserve. *)
Definition required_size (m : record_manager) (count : Z) : Z :=
  to_size (header_size_ m
           + link_to_position m (to_link (to_size (record_count_ m + count)))).

(** [get(link)]. *)
Definition get (m : record_manager) (link : Z) : memory :=
  let memory := access (file_ m) in
  increment memory (to_size (header_size_ m + link_to_position m link)).

End Link.

(** ** Well-formed states

    The members hold values of their C++ types: [size_t] for the geometry,
    [Link] for the cached count; a file is never larger than the capacity
    of its storage, itself a [size_t]. *)

Definition well_formed_storage (s : storage) : bool :=
  (size s <=? capacity s) && (capacity s <? 2 ^ 64).

Definition well_formed (link_width : Z) (m : record_manager) : bool :=
  (1 <=? link_width) && (link_width <=? 8)
  && (0 <=? header_size_ m) && (header_size_ m <? 2 ^ 64)
  && (0 <=? record_size_ m) && (record_size_ m <? 2 ^ 64)
  && (0 <=? record_count_ m) && (record_count_ m <? 2 ^ (8 * link_width))
  && well_formed_storage (file_ m).

(** The bytes of the persisted count field. *)
Definition count_field (link_width : Z) (m : record_manager) : list byte :=
  firstn (Z.to_nat link_width)
         (skipn (Z.to_nat (header_size_ m)) (bytes (file_ m))).

(** The count that the file of [m] persists. *)
Definition persisted_count (link_width : Z) (m : record_manager) : Z :=
  from_little_endian (count_field link_width m).

(** The count field lies inside the file. *)
Definition field_in_file (link_width : Z) (m : record_manager) : Prop :=
  0 <= header_size_ m /\
  header_size_ m + link_width <= size (file_ m) < 2 ^ 64.

(** The sum of the requested counts. *)
Definition total (counts : list Z) : Z := fold_right Z.add 0 counts.

(** ** Example stores *)

Definition zeros (n : nat) : list byte := repeat x00 n.

(** The store of the specification's scenario ([Link] of 4 bytes, no
    header, records of 10 bytes), as [create()] leaves it. *)
Definition store32 : record_manager :=
  {| file_ := {| bytes := zeros 4; capacity := 1000 |};
     header_size_ := 0; record_size_ := 10; record_count_ := 0 |}.

(** The same store on a storage that cannot grow. *)
Definition full32 : record_manager :=
  {| file_ := {| bytes := zeros 4; capacity := 4 |};
     header_size_ := 0; record_size_ := 10; record_count_ := 0 |}.

(** [store32] after [allocate(3)]. *)
Definition grown32 : record_manager :=
  {| file_ := {| bytes := zeros 34; capacity := 1000 |};
     header_size_ := 0; record_size_ := 10; record_count_ := 3 |}.

(** A store of records of size zero, after [create()] and [allocate(2)]. *)
Definition flat32 : record_manager :=
  {| file_ := {| bytes := zeros 4; capacity := 1000 |};
     header_size_ := 0; record_size_ := 0; record_count_ := 2 |}.

(** A store with [Link] of 8 bytes and records of 2 bytes, as [create()]
    leaves it. *)
Definition store64 : record_manager :=
  {| file_ := {| bytes := zeros 8; capacity := 1000 |};
     header_size_ := 0; record_size_ := 2; record_count_ := 0 |}.

(** [store64] after [allocate(2^63 + 1)]. *)
Definition wrapped64 : record_manager :=
  {| file_ := {| bytes := zeros 10; capacity := 1000 |};
     header_size_ := 0; record_size_ := 2; record_count_ := 2 ^ 63 + 1 |}.

(** A file of 8 bytes whose count field holds [2^63]: what [create()],
    [allocate(2^63)] and [commit()] leave of [store64]. *)
Definition half64 : storage :=
  {| bytes := zeros 7 ++ [x80]; capacity := 1000 |}.

(** A file of 34 bytes whose count field holds 3: what [commit()] leaves
    of [grown32]. *)
Definition committed32 : storage :=
  {| bytes := x03 :: zeros 33; capacity := 1000 |}.

(** ** Successive allocations *)

(** [allocate] called once for each element of [counts], in order: the
    link returned by each call paired with [count()] after it, and the
    final state. *)
Fixpoint allocate_all (link_width : Z) (m : record_manager) (counts : list Z)
  : list (Z * Z) * record_manager :=
  match counts with
  | [] => ([], m)
  | n :: rest =>
      let (link, m1) := allocate link_width m n in
      let (trace, m2) := allocate_all link_width m1 rest in
      ((link, count m1) :: trace, m2)
  end.

(** Whether the storage accepts every reservation of these calls. *)
Fixpoint all_reserved (link_width : Z) (m : record_manager) (counts : list Z)
  : bool :=
  match counts with
  | [] => true
  | n :: rest =>
      fst (reserve (file_ m) (required_size link_width m n))
      && all_reserved link_width (snd (allocate link_width m n)) rest
  end.

(** The running sums of [counts] from [base]: for each element the sum
    before it paired with the sum after it. *)
Fixpoint running_sums (base : Z) (counts : list Z) : list (Z * Z) :=
  match counts with
  | [] => []
  | n :: rest => (base, base + n) :: running_sums (base + n) rest
  end.

(** ** The size invariant *)

(** The file is long enough for the header, the count field and every
    record below the cached count (the test of [start()], "records size
    does not exceed file size", without wrap-around). *)
Definition records_in_file (link_width : Z) (m : record_manager) : Prop :=
  header_size_ m + link_width + record_count_ m * record_size_ m
  <= size (file_ m).

(** A manager reopened over the file that [m] leaves, with the geometry of
    [m]. *)
Definition reopen (m : record_manager) : record_manager :=
  construct (file_ m) (header_size_ m) (record_size_ m).

(** ** The shard of [src/database/hdb_shard.cpp] *)

Module hdb_shard.

(** Modelled from the spec: [mmfile::resize] is declared outside of this
    repository's sources; it sets the file size exactly and reports whether
    it succeeded. *)
Definition mmfile_resize (file : storage) (new_size : Z) : bool * storage :=
  if new_size <=? capacity file
  then (true, {| bytes := fit (Z.to_nat new_size) (bytes file);
                 capacity := capacity file |})
  else (false, file).

(** [hdb_shard::reserve(size)]. *)
Definition reserve (file : storage) (size_ : Z) : result storage :=
  BITCOIN_ASSERT (size file <? size_) ;;;
  let (success, f) := mmfile_resize file size_ in
  BITCOIN_ASSERT success ;;;
  Ok f.

Section Shard.

(** The constant [shard_max_entries] is declared in the header of the
    class, outside of this repository's sources. *)
Variable shard_max_entries : Z.

(** [hdb_shard::initialize_new()]. *)
Definition initialize_new (file : storage) : result storage :=
  let total_size := to_size (8 + to_size (8 * shard_max_entries)) in
  reserve file total_size.

End Shard.

End hdb_shard.

(** * Properties *)

(** ** Arithmetic of the machine integers *)

Lemma to_size_small z : 0 <= z < 2 ^ 64 -> to_size z = z.
Proof. intros H. unfold to_size. apply Z.mod_small. exact H. Qed.

Lemma to_size_range z : 0 <= to_size z < 2 ^ 64.
Proof. unfold to_size. apply Z.mod_pos_bound. reflexivity. Qed.

Lemma to_link_small w z : 0 <= z < 2 ^ (8 * w) -> to_link w z = z.
Proof. intros H. unfold to_link. apply Z.mod_small. exact H. Qed.

Lemma link_range_size w z :
  1 <= w <= 8 -> 0 <= z < 2 ^ (8 * w) -> 0 <= z < 2 ^ 64.
Proof.
  intros Hw [H0 H1]. split; [exact H0|].
  apply Z.lt_le_trans with (2 ^ (8 * w)); [exact H1|].
  apply Z.pow_le_mono_r; lia.
Qed.

Lemma well_formed_elim w m :
  well_formed w m = true ->
  1 <= w <= 8
  /\ 0 <= header_size_ m < 2 ^ 64
  /\ 0 <= record_size_ m < 2 ^ 64
  /\ 0 <= record_count_ m < 2 ^ (8 * w)
  /\ size (file_ m) <= capacity (file_ m) < 2 ^ 64.
Proof.
  unfold well_formed, well_formed_storage. intros H.
  repeat (apply andb_prop in H; destruct H as [H ?]).
  repeat match goal with
         | E : (_ <=? _) = true |- _ => apply Z.leb_le in E
         | E : (_ <? _) = true |- _ => apply Z.ltb_lt in E
         end.
  lia.
Qed.

(** ** Bytes and little-endian coding *)

Lemma Z_of_byte_range b : 0 <= Z_of_byte b < 256.
Proof.
  unfold Z_of_byte. pose proof (Byte.to_N_bounded b) as H. lia.
Qed.

Lemma Z_of_byte_of_Z z : Z_of_byte (byte_of_Z z) = z mod 256.
Proof.
  unfold Z_of_byte, byte_of_Z.
  assert (Hr : 0 <= z mod 256 < 256) by (apply Z.mod_pos_bound; lia).
  destruct (Byte.of_N (Z.to_N (z mod 256))) as [b|] eqn:E.
  - apply Byte.to_of_N in E. rewrite E. lia.
  - apply Byte.of_N_None_iff in E. lia.
Qed.

Lemma write_little_endian_length n v :
  length (write_little_endian n v) = n.
Proof.
  revert v. induction n as [|n IH]; intros v; simpl; [reflexivity|].
  now rewrite IH.
Qed.

Lemma from_little_endian_range bs :
  0 <= from_little_endian bs < 2 ^ (8 * Z.of_nat (length bs)).
Proof.
  induction bs as [|b bs IH].
  - simpl. lia.
  - cbn [from_little_endian length].
    pose proof (Z_of_byte_range b) as Hb.
    replace (8 * Z.of_nat (S (length bs)))
      with (8 + 8 * Z.of_nat (length bs)) by lia.
    rewrite Z.pow_add_r by lia.
    change (2 ^ 8) with 256. nia.
Qed.

Lemma from_write_little_endian n v :
  from_little_endian (write_little_endian n v) = v mod 2 ^ (8 * Z.of_nat n).
Proof.
  revert v. induction n as [|n IH]; intros v.
  - simpl. now rewrite Z.mod_1_r.
  - cbn [write_little_endian from_little_endian].
    rewrite IH, Z_of_byte_of_Z.
    replace (8 * Z.of_nat (S n)) with (8 + 8 * Z.of_nat n) by lia.
    rewrite Z.pow_add_r by lia.
    change (2 ^ 8) with 256.
    assert (Hp : 0 < 2 ^ (8 * Z.of_nat n)) by (apply Z.pow_pos_nonneg; lia).
    rewrite Z.rem_mul_r by lia. reflexivity.
Qed.

(** ** The storage *)

Lemma fit_length n l : length (fit n l) = n.
Proof.
  unfold fit. rewrite length_app, length_firstn, repeat_length. lia.
Qed.

Lemma resize_accepted s n :
  0 <= n <= capacity s ->
  exists s', resize s n = Ok s' /\ size s' = n /\ capacity s' = capacity s.
Proof.
  intros [H0 H1]. unfold resize.
  destruct (Z.leb_spec n (capacity s)) as [_|C]; [|lia].
  eexists. split; [reflexivity|]. split; [|reflexivity].
  unfold size. cbn [bytes]. rewrite fit_length. lia.
Qed.

Lemma resize_rejected s n :
  capacity s < n -> resize s n = Fault runtime_error.
Proof.
  intros H. unfold resize.
  destruct (Z.leb_spec n (capacity s)) as [C|_]; [lia|reflexivity].
Qed.

Lemma reserve_false_unchanged s n :
  fst (reserve s n) = false -> reserve s n = (false, s).
Proof.
  unfold reserve.
  destruct (n <=? size s); [discriminate|].
  destruct (n <=? capacity s); [discriminate|reflexivity].
Qed.

Lemma reserve_true_size s n :
  0 <= n ->
  fst (reserve s n) = true ->
  n <= size (snd (reserve s n))
  /\ capacity (snd (reserve s n)) = capacity s.
Proof.
  intros H0. unfold reserve.
  destruct (Z.leb_spec n (size s)) as [C|C]; cbn [fst snd].
  - intros _. split; [exact C|reflexivity].
  - destruct (n <=? capacity s); cbn [fst snd]; [|discriminate].
    intros _. split; [|reflexivity].
    unfold size. cbn [bytes]. rewrite fit_length. lia.
Qed.

Lemma store_then_load s address bs :
  0 <= address ->
  address + Z.of_nat (length bs) <= size s ->
  exists s',
    store s address bs = Ok s'
    /\ load s' address (length bs) = Ok bs
    /\ firstn (length bs) (skipn (Z.to_nat address) (bytes s')) = bs
    /\ size s' = size s
    /\ capacity s' = capacity s.
Proof.
  intros H0 H1. unfold store.
  destruct (Z.leb_spec 0 address) as [_|C]; [|lia].
  destruct (Z.leb_spec (address + Z.of_nat (length bs)) (size s)) as [_|C];
    [|lia].
  cbn [andb]. eexists. split; [reflexivity|].
  unfold size in H1.
  assert (Hlen : length (firstn (Z.to_nat address) (bytes s))
                 = Z.to_nat address)
    by (rewrite length_firstn; lia).
  assert (Hread :
    firstn (length bs)
      (skipn (Z.to_nat address)
         (firstn (Z.to_nat address) (bytes s) ++ bs
          ++ skipn (Z.to_nat address + length bs) (bytes s))) = bs).
  { rewrite skipn_app, Hlen, Nat.sub_diag.
    rewrite (skipn_all2 (firstn _ _)) by lia.
    cbn [skipn app].
    rewrite firstn_app, Nat.sub_diag, firstn_all. cbn [firstn].
    apply app_nil_r. }
  assert (Hsize :
    length (firstn (Z.to_nat address) (bytes s) ++ bs
            ++ skipn (Z.to_nat address + length bs) (bytes s))
    = length (bytes s)).
  { rewrite !length_app, Hlen, length_skipn. lia. }
  split; [|split; [|split]].
  - unfold load, size. cbn [bytes]. rewrite Hsize.
    destruct (Z.leb_spec 0 address) as [_|C]; [|lia].
    destruct (Z.leb_spec (address + Z.of_nat (length bs))
                         (Z.of_nat (length (bytes s)))) as [_|C]; [|lia].
    cbn [andb]. now rewrite Hread.
  - cbn [bytes]. exact Hread.
  - unfold size. cbn [bytes]. now rewrite Hsize.
  - reflexivity.
Qed.

(** ** The count field *)

Section Count_field.

Variable link_width : Z.
Hypothesis link_width_range : 1 <= link_width <= 8.

Lemma write_count_stores m :
  field_in_file link_width m ->
  exists f,
    write_count link_width m = Ok (with_file m f)
    /\ count_field link_width (with_file m f)
       = write_little_endian (Z.to_nat link_width) (record_count_ m)
    /\ size f = size (file_ m)
    /\ capacity f = capacity (file_ m).
Proof.
  intros [H0 H1]. unfold write_count.
  rewrite to_size_small by lia.
  destruct (Z.leb_spec (header_size_ m + link_width) (size (file_ m)))
    as [_|C]; [|lia].
  cbn [BITCOIN_ASSERT bind access buffer]. rewrite Z.add_0_l.
  destruct (store_then_load (file_ m) (header_size_ m)
              (write_little_endian (Z.to_nat link_width) (record_count_ m)))
    as (f & Hs & _ & Hr & Hsz & Hcap).
  - lia.
  - rewrite write_little_endian_length. lia.
  - exists f. rewrite Hs. cbn [bind]. split; [reflexivity|].
    rewrite write_little_endian_length in Hr.
    unfold count_field. cbn [with_file file_ header_size_].
    auto.
Qed.

Lemma read_count_loads m :
  field_in_file link_width m ->
  read_count link_width m = Ok (with_count m (persisted_count link_width m)).
Proof.
  intros [H0 H1]. unfold read_count.
  rewrite to_size_small by lia.
  destruct (Z.leb_spec (header_size_ m + link_width) (size (file_ m)))
    as [_|C]; [|lia].
  cbn [BITCOIN_ASSERT bind access buffer]. rewrite Z.add_0_l.
  unfold load.
  destruct (Z.leb_spec 0 (header_size_ m)) as [_|C]; [|lia].
  rewrite Z2Nat.id by lia.
  destruct (Z.leb_spec (header_size_ m + link_width) (size (file_ m)))
    as [_|C]; [|lia].
  reflexivity.
Qed.

Lemma persisted_count_range m :
  0 <= persisted_count link_width m < 2 ^ (8 * link_width).
Proof.
  unfold persisted_count.
  pose proof (from_little_endian_range (count_field link_width m)) as H.
  assert (Hl : Z.of_nat (length (count_field link_width m)) <= link_width).
  { unfold count_field. rewrite length_firstn. lia. }
  split; [lia|].
  apply Z.lt_le_trans with (1 := proj2 H).
  apply Z.pow_le_mono_r; lia.
Qed.

Lemma persisted_after_write m f :
  0 <= record_count_ m < 2 ^ (8 * link_width) ->
  count_field link_width (with_file m f)
  = write_little_endian (Z.to_nat link_width) (record_count_ m) ->
  persisted_count link_width (with_file m f) = record_count_ m.
Proof.
  intros Hc Hf. unfold persisted_count. rewrite Hf.
  rewrite from_write_little_endian, Z2Nat.id by lia.
  apply Z.mod_small. exact Hc.
Qed.

End Count_field.

(** ** The cached count *)

(** C5: [set_count(v)] with [v] greater than the current count stops in the
    assertion and never returns; with [v] at most the current count it
    returns, and [count()] is [v] afterwards. *)
Theorem set_count_bound (m : record_manager) (v : Z) :
  (count m < v -> set_count m v = Fault assertion_failure)
  /\ (v <= count m ->
      exists m', set_count m v = Ok m' /\ count m' = v
                 /\ file_ m' = file_ m).
Proof.
  unfold set_count, count. split; intros H.
  - destruct (Z.leb_spec v (record_count_ m)) as [C|_]; [lia|reflexivity].
  - destruct (Z.leb_spec v (record_count_ m)) as [_|C]; [|lia].
    cbn [BITCOIN_ASSERT bind]. eexists. repeat split.
Qed.

Lemma set_count_bound_example :
  set_count grown32 4 = Fault assertion_failure
  /\ exists m', set_count grown32 1 = Ok m' /\ count m' = 1
                /\ file_ m' = file_ grown32.
Proof.
  split.
  - apply (proj1 (set_count_bound grown32 4)). vm_compute. reflexivity.
  - apply (proj2 (set_count_bound grown32 1)). vm_compute. discriminate.
Defined.

(** ** Allocation *)

Lemma allocate_unfold w m n :
  allocate w m n =
  if fst (reserve (file_ m) (required_size w m n))
  then (record_count_ m,
        with_count (with_file m (snd (reserve (file_ m) (required_size w m n))))
                   (to_link w (to_size (record_count_ m + n))))
  else (0, with_file m (snd (reserve (file_ m) (required_size w m n)))).
Proof.
  unfold allocate, required_size.
  destruct (reserve (file_ m) _) as [[|] f]; reflexivity.
Qed.

Lemma with_file_same m : with_file m (file_ m) = m.
Proof. destruct m. reflexivity. Qed.

Lemma allocate_rejected w m n :
  fst (reserve (file_ m) (required_size w m n)) = false ->
  allocate w m n = (0, m).
Proof.
  intros H. rewrite allocate_unfold, H.
  apply reserve_false_unchanged in H. rewrite H. cbn [snd].
  now rewrite with_file_same.
Qed.

Lemma allocate_accepted_link w m n :
  fst (reserve (file_ m) (required_size w m n)) = true ->
  fst (allocate w m n) = record_count_ m.
Proof. intros H. rewrite allocate_unfold, H. reflexivity. Qed.

(** C2, amended: when the storage refuses to grow, [allocate(n)] returns 0
    and leaves the manager and its file as they were, so [count()] is
    unchanged and nothing is allocated in part; the value 0 differs from
    the link returned by every successful allocation made at a nonzero
    count. *)
Theorem allocate_failure_unchanged (w : Z) (m : record_manager) (n : Z) :
  fst (reserve (file_ m) (required_size w m n)) = false ->
  allocate w m n = (0, m)
  /\ count (snd (allocate w m n)) = count m
  /\ forall m' n',
       fst (reserve (file_ m') (required_size w m' n')) = true ->
       count m' <> 0 ->
       fst (allocate w m' n') <> fst (allocate w m n).
Proof.
  intros H. rewrite (allocate_rejected w m n H). cbn [fst snd].
  repeat split. intros m' n' H' Hc.
  rewrite (allocate_accepted_link w m' n' H'). exact Hc.
Qed.

Lemma allocate_failure_unchanged_example :
  allocate 4 full32 1 = (0, full32)
  /\ count (snd (allocate 4 full32 1)) = count full32
  /\ forall m' n',
       fst (reserve (file_ m') (required_size 4 m' n')) = true ->
       count m' <> 0 ->
       fst (allocate 4 m' n') <> fst (allocate 4 full32 1).
Proof.
  apply (allocate_failure_unchanged 4 full32 1). vm_compute. reflexivity.
Defined.

(** C2 as stated fails: the value returned on failure is not distinct from
    every successful result.  On [full32] the storage refuses the growth,
    on [store32] it accepts it, and [allocate(1)] returns 0 on both. *)
Lemma allocate_failure_value_not_distinct :
  ~ (forall m n m' n',
       fst (reserve (file_ m) (required_size 4 m n)) = false ->
       fst (reserve (file_ m') (required_size 4 m' n')) = true ->
       fst (allocate 4 m n) <> fst (allocate 4 m' n')).
Proof.
  intros H. apply (H full32 1 store32 1); vm_compute; reflexivity.
Qed.

(** C9: the value returned by a failed [allocate] is the literal 0, which
    is also the link returned by a successful allocation from an empty
    store: on an empty manager whose storage accepts the growth and on one
    whose storage rejects it, [allocate(3)] returns 0; the first call has
    allocated the three records (the count is 3 and the file has grown to
    hold them), the second has changed nothing. *)
Theorem allocate_result_ambiguous :
  exists (accepting rejecting : record_manager) (n : Z),
    0 < n
    /\ count accepting = 0 /\ count rejecting = 0
    /\ fst (reserve (file_ accepting) (required_size 4 accepting n)) = true
    /\ fst (reserve (file_ rejecting) (required_size 4 rejecting n)) = false
    /\ fst (allocate 4 accepting n) = 0
    /\ fst (allocate 4 rejecting n) = 0
    /\ count (snd (allocate 4 accepting n)) = n
    /\ size (file_ (snd (allocate 4 accepting n)))
       = header_size_ accepting + 4 + n * record_size_ accepting
    /\ snd (allocate 4 accepting n) <> accepting
    /\ snd (allocate 4 rejecting n) = rejecting.
Proof.
  exists store32, full32, 3.
  assert (Hs : allocate 4 store32 3 = (0, grown32)) by reflexivity.
  assert (Hf : allocate 4 full32 3 = (0, full32)) by reflexivity.
  rewrite Hs, Hf. cbn [fst snd].
  split; [reflexivity|].
  repeat (split; [reflexivity|]).
  split; [discriminate|reflexivity].
Qed.

(** ** Creation *)

Lemma link_to_position_zero w m :
  1 <= w <= 8 -> link_to_position w m 0 = w.
Proof.
  intros Hw. unfold link_to_position. rewrite Z.mul_0_l.
  rewrite (to_size_small 0) by lia. rewrite Z.add_0_r.
  apply to_size_small. lia.
Qed.

Lemma create_initialised w m :
  record_count_ m <> 0 -> create w m = Ok (false, m).
Proof.
  intros H. unfold create.
  destruct (Z.eqb_spec (record_count_ m) 0) as [C|_]; [contradiction|].
  reflexivity.
Qed.

Lemma create_empty w m :
  well_formed w m = true ->
  record_count_ m = 0 ->
  header_size_ m + w <= capacity (file_ m) ->
  exists f,
    create w m = Ok (true, with_file m f)
    /\ size f = header_size_ m + w
    /\ capacity f = capacity (file_ m)
    /\ count_field w (with_file m f) = write_little_endian (Z.to_nat w) 0
    /\ persisted_count w (with_file m f) = 0.
Proof.
  intros Hwf Hc Hcap.
  destruct (well_formed_elim w m Hwf) as (Hw & Hh & Hr & _ & Hs).
  unfold create. rewrite Hc. cbn [Z.eqb negb].
  rewrite link_to_position_zero by exact Hw.
  rewrite to_size_small by lia.
  destruct (resize_accepted (file_ m) (header_size_ m + w))
    as (f & Hres & Hsz & Hcp); [lia|].
  rewrite Hres. cbn [bind].
  destruct (write_count_stores w Hw (with_file m f)) as (f' & Hwr & Hf & Hs' & Hc').
  - unfold field_in_file. cbn [with_file header_size_ file_]. lia.
  - rewrite Hwr. cbn [bind]. cbn [with_file file_ header_size_ record_size_
                                    record_count_] in *.
    exists f'. split; [reflexivity|].
    split; [lia|]. split; [congruence|].
    rewrite Hc in Hf. split; [exact Hf|].
    unfold persisted_count.
    change (count_field w (with_file m f'))
      with (count_field w (with_file (with_file m f) f')).
    rewrite Hf, from_write_little_endian. apply Z.mod_0_l.
    apply Z.pow_nonzero; lia.
Qed.

(** C4: [create()] returns false and changes nothing when the record count
    is nonzero; otherwise, on a storage that accepts the size, it resizes
    the file to exactly [header_size + link_width] bytes, writes the count
    0 into the count field and returns true. *)
Theorem create_initialises (w : Z) (m : record_manager) :
  (count m <> 0 -> create w m = Ok (false, m))
  /\ (well_formed w m = true ->
      count m = 0 ->
      header_size_ m + w <= capacity (file_ m) ->
      exists m',
        create w m = Ok (true, m')
        /\ size (file_ m') = header_size_ m + w
        /\ count_field w m' = write_little_endian (Z.to_nat w) 0
        /\ persisted_count w m' = 0
        /\ count m' = 0
        /\ header_size_ m' = header_size_ m
        /\ record_size_ m' = record_size_ m)
  /\ (well_formed w m = true ->
      count m = 0 ->
      capacity (file_ m) < header_size_ m + w < 2 ^ 64 ->
      create w m = Fault runtime_error).
Proof.
  split; [|split].
  - apply create_initialised.
  - intros Hwf Hc Hcap.
    destruct (create_empty w m Hwf Hc Hcap) as (f & Hcr & Hsz & _ & Hf & Hp).
    exists (with_file m f). cbn [with_file file_ header_size_ record_size_].
    unfold count. cbn [with_file record_count_].
    repeat split; assumption.
  - intros Hwf Hc Hcap.
    destruct (well_formed_elim w m Hwf) as (Hw & Hh & _).
    unfold count in Hc. unfold create. rewrite Hc. cbn [Z.eqb negb].
    rewrite link_to_position_zero by exact Hw.
    rewrite to_size_small by lia.
    rewrite resize_rejected by lia. reflexivity.
Qed.

Lemma create_initialises_example :
  create 4 grown32 = Ok (false, grown32)
  /\ exists m',
       create 4 (construct {| bytes := []; capacity := 1000 |} 0 10)
       = Ok (true, m')
       /\ size (file_ m') = 0 + 4
       /\ count_field 4 m' = write_little_endian (Z.to_nat 4) 0
       /\ persisted_count 4 m' = 0
       /\ count m' = 0
       /\ header_size_ m' = 0
       /\ record_size_ m' = 10.
Proof.
  split.
  - apply (proj1 (create_initialises 4 grown32)). vm_compute. discriminate.
  - apply (proj1 (proj2 (create_initialises 4
                    (construct {| bytes := []; capacity := 1000 |} 0 10)))).
    + vm_compute. reflexivity.
    + reflexivity.
    + vm_compute. discriminate.
Defined.

(** ** Link and offset arithmetic, within the range of [size_t] *)

Lemma link_to_position_exact w m link :
  1 <= w <= 8 ->
  0 <= link ->
  0 <= record_size_ m ->
  w + link * record_size_ m < 2 ^ 64 ->
  link_to_position w m link = w + link * record_size_ m.
Proof.
  intros Hw Hl Hr Hb. unfold link_to_position.
  assert (0 <= link * record_size_ m) by nia.
  rewrite (to_size_small (link * record_size_ m)) by lia.
  apply to_size_small. lia.
Qed.

(** ** Reopening *)

Lemma start_reads w m :
  1 <= w <= 8 ->
  field_in_file w m ->
  start w m =
  Ok (to_size (header_size_ m
               + link_to_position w m (persisted_count w m))
      <=? size (file_ m),
      with_count m (persisted_count w m)).
Proof.
  intros Hw Hf. unfold start.
  rewrite (read_count_loads w Hw m Hf). cbn [bind]. reflexivity.
Qed.

(** C10: the check of [create()] looks at the cached count only.  On a
    freshly constructed manager, whose cached count is 0, [create()]
    returns true and resizes the file to exactly
    [header_size + link_width] bytes with a zero count field, whatever
    count the file persisted; when [start()] has loaded a nonzero persisted
    count first, [create()] returns false and changes nothing. *)
Theorem create_ignores_persisted_count
    (w : Z) (file : storage) (header_size record_size : Z) :
  well_formed w (construct file header_size record_size) = true ->
  header_size + w <= capacity file ->
  (exists m',
     create w (construct file header_size record_size) = Ok (true, m')
     /\ size (file_ m') = header_size + w
     /\ persisted_count w m' = 0)
  /\ (header_size + w <= size file ->
      persisted_count w (construct file header_size record_size) <> 0 ->
      exists b m1,
        start w (construct file header_size record_size) = Ok (b, m1)
        /\ count m1
           = persisted_count w (construct file header_size record_size)
        /\ file_ m1 = file
        /\ create w m1 = Ok (false, m1)).
Proof.
  intros Hwf Hcap. set (m := construct file header_size record_size) in *.
  destruct (well_formed_elim w m Hwf) as (Hw & Hh & Hr & _ & Hs).
  split.
  - destruct (create_empty w m Hwf eq_refl Hcap) as (f & Hcr & Hsz & _ & _ & Hp).
    exists (with_file m f). repeat split; assumption.
  - intros Hsz Hp.
    assert (Hf : field_in_file w m).
    { unfold field_in_file. cbn [m construct header_size_ file_] in *. lia. }
    rewrite (start_reads w m Hw Hf).
    eexists _, _. split; [reflexivity|].
    split; [reflexivity|]. split; [reflexivity|].
    apply create_initialised. exact Hp.
Qed.

Lemma create_ignores_persisted_count_example :
  persisted_count 4 (construct committed32 0 10) = 3
  /\ (exists m',
        create 4 (construct committed32 0 10) = Ok (true, m')
        /\ size (file_ m') = 0 + 4
        /\ persisted_count 4 m' = 0)
  /\ (exists b m1,
        start 4 (construct committed32 0 10) = Ok (b, m1)
        /\ count m1 = persisted_count 4 (construct committed32 0 10)
        /\ file_ m1 = committed32
        /\ create 4 m1 = Ok (false, m1)).
Proof.
  split; [reflexivity|].
  assert (Hwf : well_formed 4 (construct committed32 0 10) = true)
    by (vm_compute; reflexivity).
  assert (Hcap : 0 + 4 <= capacity committed32)
    by (vm_compute; discriminate).
  split.
  - exact (proj1 (create_ignores_persisted_count 4 committed32 0 10 Hwf Hcap)).
  - apply (proj2 (create_ignores_persisted_count 4 committed32 0 10 Hwf Hcap)).
    + vm_compute. discriminate.
    + vm_compute. discriminate.
Defined.

(** ** Commit and reopen *)

Lemma commit_stores w m :
  well_formed w m = true ->
  header_size_ m + w <= size (file_ m) ->
  exists f,
    commit w m = Ok (with_file m f)
    /\ count_field w (with_file m f)
       = write_little_endian (Z.to_nat w) (record_count_ m)
    /\ persisted_count w (with_file m f) = record_count_ m
    /\ size f = size (file_ m).
Proof.
  intros Hwf Hsz.
  destruct (well_formed_elim w m Hwf) as (Hw & Hh & _ & Hc & Hs).
  destruct (write_count_stores w Hw m) as (f & Hwr & Hf & Hs' & _).
  - unfold field_in_file. lia.
  - exists f. unfold commit. split; [exact Hwr|]. split; [exact Hf|].
    split; [|exact Hs'].
    apply persisted_after_write; assumption.
Qed.

(** C3, amended: on a store whose file holds the count field, [commit()]
    writes the cached count as exactly [link_width] little-endian bytes at
    offset [header_size] and leaves the file size as it is; [start()], from
    any cached count, then reads that count back, and when
    [header_size + link_width + count * record_size] is within the range
    of [size_t] it returns whether the file size is at least that sum.  A
    store that [create()] has initialised and that is reopened by
    [start()] has count 0, and [start()] returns true. *)
Theorem commit_start_round_trip (w : Z) (m : record_manager) :
  well_formed w m = true ->
  (header_size_ m + w <= size (file_ m) ->
   exists m1,
     commit w m = Ok m1
     /\ count_field w m1 = write_little_endian (Z.to_nat w) (count m)
     /\ Z.of_nat (length (count_field w m1)) = w
     /\ size (file_ m1) = size (file_ m)
     /\ forall cached,
        exists b m2,
          start w (with_count m1 cached) = Ok (b, m2)
          /\ count m2 = count m
          /\ file_ m2 = file_ m1
          /\ (header_size_ m + w + count m * record_size_ m < 2 ^ 64 ->
              b = (header_size_ m + w + count m * record_size_ m
                   <=? size (file_ m2))))
  /\ (count m = 0 ->
      header_size_ m + w <= capacity (file_ m) ->
      exists m1 m2,
        create w m = Ok (true, m1)
        /\ start w (construct (file_ m1) (header_size_ m1) (record_size_ m1))
           = Ok (true, m2)
        /\ count m2 = 0).
Proof.
  intros Hwf.
  destruct (well_formed_elim w m Hwf) as (Hw & Hh & Hr & Hc & Hs).
  split.
  - intros Hsz.
    destruct (commit_stores w m Hwf Hsz) as (f & Hcm & Hf & Hp & Hsf).
    exists (with_file m f). split; [exact Hcm|].
    split; [exact Hf|]. split.
    { rewrite Hf, write_little_endian_length. lia. }
    split; [exact Hsf|]. intros cached.
    assert (Hin : field_in_file w (with_count (with_file m f) cached)).
    { unfold field_in_file.
      cbn [with_count with_file header_size_ file_]. lia. }
    rewrite (start_reads w _ Hw Hin).
    change (persisted_count w (with_count (with_file m f) cached))
      with (persisted_count w (with_file m f)).
    eexists _, _. split; [reflexivity|].
    unfold count. cbn [with_count record_count_].
    split; [exact Hp|]. split; [reflexivity|]. intros Hb.
    cbn [with_count with_file header_size_ file_]. rewrite Hp.
    rewrite link_to_position_exact; cbn [with_count with_file record_size_];
      try lia.
    rewrite to_size_small by nia.
    now rewrite Z.add_assoc.
  - intros Hz Hcap.
    destruct (create_empty w m Hwf Hz Hcap) as (f & Hcr & Hsz & _ & _ & Hp).
    exists (with_file m f). cbn [with_file file_ header_size_ record_size_].
    assert (Hin : field_in_file w
                    (construct f (header_size_ m) (record_size_ m))).
    { unfold field_in_file. cbn [construct header_size_ file_]. lia. }
    rewrite (start_reads w _ Hw Hin).
    change (persisted_count w (construct f (header_size_ m) (record_size_ m)))
      with (persisted_count w (with_file m f)).
    rewrite Hp, link_to_position_zero by exact Hw.
    cbn [construct header_size_ file_]. rewrite to_size_small by lia.
    rewrite Hsz, Z.leb_refl.
    eexists. split; [exact Hcr|]. split; reflexivity.
Qed.

Lemma commit_start_round_trip_example :
  (exists m1,
     commit 4 grown32 = Ok m1
     /\ count_field 4 m1 = [x03; x00; x00; x00]
     /\ exists m2, start 4 (with_count m1 0) = Ok (true, m2) /\ count m2 = 3)
  /\ (exists m1 m2,
        create 4 store32 = Ok (true, m1)
        /\ start 4 (construct (file_ m1) (header_size_ m1) (record_size_ m1))
           = Ok (true, m2)
        /\ count m2 = 0).
Proof.
  split.
  - destruct (proj1 (commit_start_round_trip 4 grown32 eq_refl))
      as (m1 & Hc & Hf & _ & Hs & Hstart).
    + vm_compute. discriminate.
    + exists m1. split; [exact Hc|]. split; [exact Hf|].
      destruct (Hstart 0) as (b & m2 & Hst & Hcount & Hfile & Hb).
      exists m2. split; [|exact Hcount].
      rewrite Hst, Hb; [|vm_compute; reflexivity].
      rewrite Hfile, Hs. reflexivity.
  - apply (proj2 (commit_start_round_trip 4 store32 eq_refl)).
    + reflexivity.
    + vm_compute. discriminate.
Defined.

(** C3 as stated fails: [start()] does not always return whether the file
    is at least [header_size + link_width + count * record_size] bytes
    long.  With [Link] of 8 bytes and records of 2 bytes, [create()],
    [allocate(2^63)] and [commit()] leave a file of 8 bytes whose count
    field holds [2^63]; [start()] on that file loads the count and returns
    true, although the file is shorter than [0 + 8 + 2^63 * 2] bytes.
    Besides, on a manager constructed over an empty file [commit()] stops
    in its assertion and stores nothing. *)
Lemma start_accepts_short_file :
  commit 4 (construct {| bytes := []; capacity := 1000 |} 0 10)
  = Fault assertion_failure
  /\ create 8 (construct {| bytes := []; capacity := 1000 |} 0 2)
     = Ok (true, store64)
  /\ (exists m1,
        commit 8 (snd (allocate 8 store64 (2 ^ 63))) = Ok m1
        /\ file_ m1 = half64)
  /\ start 8 (construct half64 0 2)
     = Ok (true, with_count (construct half64 0 2) (2 ^ 63))
  /\ (0 + 8 + 2 ^ 63 * 2 <=? size half64) = false.
Proof.
  split; [reflexivity|]. split; [reflexivity|].
  split; [|split; reflexivity].
  eexists. split; reflexivity.
Qed.

(** ** Successful allocation *)

Lemma well_formed_intro w m :
  1 <= w <= 8 ->
  0 <= header_size_ m < 2 ^ 64 ->
  0 <= record_size_ m < 2 ^ 64 ->
  0 <= record_count_ m < 2 ^ (8 * w) ->
  size (file_ m) <= capacity (file_ m) < 2 ^ 64 ->
  well_formed w m = true.
Proof.
  intros Hw Hh Hr Hc Hs. unfold well_formed, well_formed_storage.
  repeat (apply andb_true_intro; split);
    first [apply Z.leb_le; lia | apply Z.ltb_lt; lia].
Qed.

Lemma required_size_range w m n : 0 <= required_size w m n < 2 ^ 64.
Proof. unfold required_size. apply to_size_range. Qed.

Lemma allocate_accepted w m n :
  well_formed w m = true ->
  0 <= n ->
  record_count_ m + n < 2 ^ (8 * w) ->
  fst (reserve (file_ m) (required_size w m n)) = true ->
  exists m',
    allocate w m n = (record_count_ m, m')
    /\ record_count_ m' = record_count_ m + n
    /\ well_formed w m' = true.
Proof.
  intros Hwf Hn Hb Hres.
  destruct (well_formed_elim w m Hwf) as (Hw & Hh & Hr & Hc & Hs).
  rewrite allocate_unfold, Hres.
  assert (Hsum : 0 <= record_count_ m + n < 2 ^ (8 * w)) by lia.
  rewrite (to_size_small (record_count_ m + n))
    by (apply (link_range_size w); assumption).
  rewrite to_link_small by exact Hsum.
  eexists. split; [reflexivity|].
  cbn [with_count with_file record_count_]. split; [reflexivity|].
  destruct (reserve_true_size (file_ m) (required_size w m n)) as [_ Hcap];
    [apply required_size_range|exact Hres|].
  apply well_formed_intro;
    cbn [with_count with_file header_size_ record_size_ record_count_ file_];
    try assumption.
  rewrite Hcap. split; [|lia].
  revert Hres. unfold reserve.
  destruct (Z.leb_spec (required_size w m n) (size (file_ m))) as [_|_];
    cbn [fst snd]; [lia|].
  destruct (Z.leb_spec (required_size w m n) (capacity (file_ m))) as [C|_];
    cbn [fst snd]; [|discriminate].
  intros _. unfold size. cbn [bytes]. rewrite fit_length.
  pose proof (required_size_range w m n). lia.
Qed.

Lemma total_nonneg counts :
  Forall (fun n => 0 <= n) counts -> 0 <= total counts.
Proof.
  induction 1 as [|n rest Hn _ IH]; cbn [total fold_right]; [lia|].
  unfold total in IH. lia.
Qed.

Lemma allocate_all_running w counts :
  forall m,
    well_formed w m = true ->
    Forall (fun n => 0 <= n) counts ->
    record_count_ m + total counts < 2 ^ (8 * w) ->
    all_reserved w m counts = true ->
    fst (allocate_all w m counts) = running_sums (record_count_ m) counts.
Proof.
  induction counts as [|n rest IH]; intros m Hwf Hpos Hb Hres.
  - reflexivity.
  - inversion Hpos as [|? ? Hn Hrest]; subst.
    cbn [all_reserved] in Hres. apply andb_prop in Hres.
    destruct Hres as [Hfirst Hnext].
    pose proof (total_nonneg rest Hrest) as Ht.
    change (total (n :: rest)) with (n + total rest) in Hb.
    destruct (allocate_accepted w m n Hwf Hn) as (m1 & Ha & Hc & Hwf1);
      [lia|exact Hfirst|].
    cbn [allocate_all running_sums]. rewrite Ha in *. cbn [snd] in Hnext.
    specialize (IH m1 Hwf1 Hrest).
    destruct (allocate_all w m1 rest) as [trace m2]. cbn [fst] in *.
    unfold count. rewrite IH, Hc; [reflexivity|lia|exact Hnext].
Qed.

Lemma write_count_keeps_count w m m' :
  write_count w m = Ok m' -> record_count_ m' = record_count_ m.
Proof.
  unfold write_count.
  destruct (BITCOIN_ASSERT _); cbn [bind]; [|discriminate].
  destruct (store _ _ _); cbn [bind]; [|discriminate].
  intros E. injection E as <-. reflexivity.
Qed.

Lemma create_true_count w m0 m :
  create w m0 = Ok (true, m) -> record_count_ m = 0.
Proof.
  unfold create.
  destruct (Z.eqb_spec (record_count_ m0) 0) as [Hz|_]; cbn [negb];
    [|discriminate].
  destruct (resize _ _) as [f|]; cbn [bind]; [|discriminate].
  destruct (write_count w (with_file m0 f)) as [m1|] eqn:E; cbn [bind];
    [|discriminate].
  intros H. injection H as <-.
  apply write_count_keeps_count in E. rewrite E. exact Hz.
Qed.

(** C1, amended: when [c + n] does not exceed the largest value of [Link]
    and the storage accepts the reservation, [allocate(n)] on a store of
    count [c] returns [c], and [count()] is [c + n] afterwards.  Hence,
    for successful calls [allocate(n_i)] on a freshly created store whose
    requested counts add up to at most the largest value of [Link], each
    call returns the sum of the counts requested before it, and [count()]
    after each call is the running sum. *)
Theorem allocate_running_sum (w : Z) (m : record_manager) :
  well_formed w m = true ->
  (forall n,
     0 <= n ->
     count m + n < 2 ^ (8 * w) ->
     fst (reserve (file_ m) (required_size w m n)) = true ->
     fst (allocate w m n) = count m
     /\ count (snd (allocate w m n)) = count m + n)
  /\ (forall m0 counts,
        create w m0 = Ok (true, m) ->
        Forall (fun n => 0 <= n) counts ->
        total counts < 2 ^ (8 * w) ->
        all_reserved w m counts = true ->
        fst (allocate_all w m counts) = running_sums 0 counts).
Proof.
  intros Hwf. split.
  - intros n Hn Hb Hres.
    destruct (allocate_accepted w m n Hwf Hn Hb Hres) as (m' & Ha & Hc & _).
    rewrite Ha. cbn [fst snd]. split; [reflexivity|exact Hc].
  - intros m0 counts Hcreate Hpos Hb Hres.
    pose proof (create_true_count w m0 m Hcreate) as Hz.
    rewrite <- Hz. apply allocate_all_running; try assumption.
    rewrite Hz. exact Hb.
Qed.

Lemma allocate_running_sum_example :
  (fst (allocate 4 grown32 2) = 3 /\ count (snd (allocate 4 grown32 2)) = 3 + 2)
  /\ fst (allocate_all 4 store32 [3; 0; 5; 1])
     = [(0, 3); (3, 3); (3, 8); (8, 9)].
Proof.
  split.
  - apply (proj1 (allocate_running_sum 4 grown32 eq_refl) 2).
    + lia.
    + vm_compute. reflexivity.
    + vm_compute. reflexivity.
  - apply (proj2 (allocate_running_sum 4 store32 eq_refl)
             (construct {| bytes := []; capacity := 1000 |} 0 10)
             [3; 0; 5; 1]).
    + vm_compute. reflexivity.
    + repeat constructor; lia.
    + vm_compute. reflexivity.
    + vm_compute. reflexivity.
Defined.

(** C1 as stated fails: on the freshly created [store32], whose [Link] has
    4 bytes, the storage accepts the reservation of [allocate(2^32)], the
    call returns 0, and [count()] is still 0 afterwards, not [0 + 2^32];
    the next [allocate(1)] returns 0 again, not [2^32]. *)
Lemma allocate_count_wraps :
  create 4 (construct {| bytes := []; capacity := 1000 |} 0 10)
  = Ok (true, store32)
  /\ fst (reserve (file_ store32) (required_size 4 store32 (2 ^ 32))) = true
  /\ fst (allocate 4 store32 (2 ^ 32)) = count store32
  /\ count (snd (allocate 4 store32 (2 ^ 32))) <> count store32 + 2 ^ 32
  /\ all_reserved 4 store32 [2 ^ 32; 1] = true
  /\ fst (allocate_all 4 store32 [2 ^ 32; 1]) <> running_sums 0 [2 ^ 32; 1].
Proof.
  vm_compute. repeat split; discriminate.
Qed.

(** ** Links and offsets *)

(** C6, amended: for records of nonzero size and every valid link [L] in
    [[0, count())] whose position [link_width + L * record_size] is within
    the range of [size_t], [position_to_link(link_to_position(L))] is
    [L]. *)
Theorem position_to_link_inverse (w : Z) (m : record_manager) (link : Z) :
  well_formed w m = true ->
  0 <= link < count m ->
  0 < record_size_ m ->
  w + link * record_size_ m < 2 ^ 64 ->
  link_to_position w m link = w + link * record_size_ m
  /\ position_to_link w m (link_to_position w m link) = Ok link.
Proof.
  intros Hwf Hl Hr Hb. unfold count in Hl.
  destruct (well_formed_elim w m Hwf) as (Hw & _ & _ & Hc & _).
  rewrite link_to_position_exact by lia.
  split; [reflexivity|]. unfold position_to_link.
  destruct (Z.eqb_spec (record_size_ m) 0) as [C|_]; [lia|].
  replace (w + link * record_size_ m - w) with (link * record_size_ m) by lia.
  rewrite to_size_small by nia.
  rewrite Z.div_mul by lia.
  rewrite to_link_small by lia. reflexivity.
Qed.

Lemma position_to_link_inverse_example :
  link_to_position 4 grown32 2 = 4 + 2 * 10
  /\ position_to_link 4 grown32 (link_to_position 4 grown32 2) = Ok 2.
Proof.
  apply (position_to_link_inverse 4 grown32 2).
  - reflexivity.
  - vm_compute. split; [discriminate|reflexivity].
  - reflexivity.
  - reflexivity.
Defined.

(** C6 as stated fails.  [allocate(2^63 + 1)] on the freshly created
    [store64] leaves [wrapped64], where the link [2^63] is valid and
    [position_to_link(link_to_position(2^63))] is 0.  On [flat32], a store
    of records of size zero holding two records, [position_to_link]
    divides by zero. *)
Lemma position_to_link_not_inverse :
  allocate 8 store64 (2 ^ 63 + 1) = (0, wrapped64)
  /\ 0 <= 2 ^ 63 < count wrapped64
  /\ position_to_link 8 wrapped64 (link_to_position 8 wrapped64 (2 ^ 63))
     = Ok 0
  /\ allocate 4 (with_count flat32 0) 2 = (0, flat32)
  /\ 0 <= 1 < count flat32
  /\ position_to_link 4 flat32 (link_to_position 4 flat32 1)
     = Fault division_by_zero.
Proof.
  vm_compute. repeat split; discriminate.
Qed.

Lemma get_exact w m link :
  well_formed w m = true ->
  0 <= link ->
  header_size_ m + w + link * record_size_ m < 2 ^ 64 ->
  get w m link
  = {| buffer := header_size_ m + w + link * record_size_ m |}.
Proof.
  intros Hwf Hl Hb.
  destruct (well_formed_elim w m Hwf) as (Hw & Hh & Hr & _ & _).
  assert (0 <= link * record_size_ m) by nia.
  unfold get, increment, access. cbn [buffer]. rewrite Z.add_0_l.
  rewrite link_to_position_exact by lia.
  rewrite (to_size_small (header_size_ m + (w + link * record_size_ m)))
    by lia.
  rewrite to_size_small by lia.
  now rewrite Z.add_assoc.
Qed.

(** C7, amended: [get(L)] does not look at the cached count; for every
    link [L] whose offset [header_size + link_width + L * record_size] is
    within the range of [size_t] it returns an accessor at that offset, and
    for records of nonzero size two such links that are
    different have different accessors. *)
Theorem get_offset (w : Z) (m : record_manager) :
  well_formed w m = true ->
  (forall link cached,
     0 <= link ->
     header_size_ m + w + link * record_size_ m < 2 ^ 64 ->
     get w (with_count m cached) link
     = {| buffer := header_size_ m + w + link * record_size_ m |})
  /\ (forall link1 link2,
        0 < record_size_ m ->
        0 <= link1 ->
        0 <= link2 ->
        header_size_ m + w + link1 * record_size_ m < 2 ^ 64 ->
        header_size_ m + w + link2 * record_size_ m < 2 ^ 64 ->
        link1 <> link2 ->
        get w m link1 <> get w m link2).
Proof.
  intros Hwf. split.
  - intros link cached Hl Hb.
    change (get w (with_count m cached) link) with (get w m link).
    apply get_exact; assumption.
  - intros link1 link2 Hr H1 H2 Hb1 Hb2 Hne E.
    rewrite !get_exact in E by assumption.
    injection E as E. apply Hne. nia.
Qed.

Lemma get_offset_example :
  get 4 (with_count grown32 0) 7 = {| buffer := 0 + 4 + 7 * 10 |}
  /\ get 4 grown32 1 <> get 4 grown32 2.
Proof.
  split.
  - apply (proj1 (get_offset 4 grown32 eq_refl) 7 0).
    + lia.
    + vm_compute. reflexivity.
  - apply (proj2 (get_offset 4 grown32 eq_refl) 1 2).
    + reflexivity.
    + lia.
    + lia.
    + vm_compute. reflexivity.
    + vm_compute. reflexivity.
    + lia.
Defined.

(** C7 as stated fails.  On [wrapped64] the accessor of the valid link
    [2^63] is at offset 8, not at [0 + 8 + 2^63 * 2], and it is the
    accessor of the valid link 0 as well.  On [flat32], whose records have
    size zero, the valid links 0 and 1 have the same accessor. *)
Lemma get_offset_not_injective :
  allocate 8 store64 (2 ^ 63 + 1) = (0, wrapped64)
  /\ 0 <= 2 ^ 63 < count wrapped64
  /\ buffer (get 8 wrapped64 (2 ^ 63)) = 8
  /\ buffer (get 8 wrapped64 (2 ^ 63)) <> 0 + 8 + 2 ^ 63 * 2
  /\ get 8 wrapped64 0 = get 8 wrapped64 (2 ^ 63)
  /\ 0 <= 1 < count flat32
  /\ get 4 flat32 0 = get 4 flat32 1.
Proof.
  vm_compute. repeat split; discriminate.
Qed.

(** ** Overflow *)

(** C8: the arithmetic is not guarded.  With [Link] of 8 bytes and records
    of 2 bytes, [link_to_position] of the largest link is 6, inside the
    count field, and the links 0 and [2^63] have the same position; the
    size that [allocate(2^63)] requires on the freshly created [store64]
    is 8 bytes, the size of the file, and the call returns with
    [count()] at [2^63] and the file as it was. *)
Theorem link_arithmetic_wraps :
  link_to_position 8 store64 (2 ^ 64 - 1) = 6
  /\ link_to_position 8 store64 (2 ^ 63) = link_to_position 8 store64 0
  /\ required_size 8 store64 (2 ^ 63) = size (file_ store64)
  /\ allocate 8 store64 (2 ^ 63) = (0, with_count store64 (2 ^ 63)).
Proof.
  vm_compute. repeat split.
Qed.

(** * Further properties *)

(** ** More on the storage *)

Lemma fit_extends n l :
  (length l <= n)%nat -> fit n l = l ++ repeat x00 (n - length l).
Proof.
  intros H. unfold fit. now rewrite firstn_all2 by exact H.
Qed.

Lemma reserve_grows s n :
  size s <= capacity s ->
  size s <= size (snd (reserve s n)) <= capacity s
  /\ capacity (snd (reserve s n)) = capacity s
  /\ exists tail, bytes (snd (reserve s n)) = bytes s ++ tail.
Proof.
  intros Hs. unfold reserve.
  destruct (Z.leb_spec n (size s)) as [C|C]; cbn [snd].
  - split; [lia|]. split; [reflexivity|].
    exists []. now rewrite app_nil_r.
  - destruct (Z.leb_spec n (capacity s)) as [C'|C']; cbn [snd].
    + unfold size in *. cbn [bytes capacity]. rewrite fit_length.
      split; [lia|]. split; [reflexivity|].
      eexists. apply fit_extends. lia.
    + split; [lia|]. split; [reflexivity|].
      exists []. now rewrite app_nil_r.
Qed.

Lemma store_frame s address bs s' :
  store s address bs = Ok s' ->
  0 <= address
  /\ address + Z.of_nat (length bs) <= size s
  /\ bytes s' = firstn (Z.to_nat address) (bytes s) ++ bs
                ++ skipn (Z.to_nat address + length bs) (bytes s)
  /\ firstn (Z.to_nat address) (bytes s')
     = firstn (Z.to_nat address) (bytes s)
  /\ skipn (Z.to_nat address + length bs) (bytes s')
     = skipn (Z.to_nat address + length bs) (bytes s)
  /\ size s' = size s
  /\ capacity s' = capacity s.
Proof.
  unfold store.
  destruct (Z.leb_spec 0 address) as [H0|_]; cbn [andb]; [|discriminate].
  destruct (Z.leb_spec (address + Z.of_nat (length bs)) (size s)) as [H1|_];
    [|discriminate].
  intros E. injection E as <-. cbn [bytes capacity].
  unfold size in *. cbn [bytes].
  assert (Hlen : length (firstn (Z.to_nat address) (bytes s))
                 = Z.to_nat address)
    by (rewrite length_firstn; lia).
  repeat split; try assumption.
  - rewrite firstn_app, Hlen, Nat.sub_diag. cbn [firstn].
    rewrite app_nil_r. rewrite firstn_firstn. f_equal. lia.
  - rewrite app_assoc, skipn_app.
    rewrite length_app, Hlen.
    rewrite (skipn_all2 (firstn _ _ ++ bs))
      by (rewrite length_app, Hlen; lia).
    now rewrite Nat.sub_diag.
  - rewrite !length_app, Hlen, length_skipn. lia.
Qed.

Lemma store_again s address bs s' :
  store s address bs = Ok s' -> store s' address bs = Ok s'.
Proof.
  intros E.
  destruct (store_frame s address bs s' E)
    as (H0 & H1 & Hb & Hpre & Hpost & Hsz & Hcap).
  unfold store. rewrite Hsz.
  destruct (Z.leb_spec 0 address) as [_|C]; [|lia].
  destruct (Z.leb_spec (address + Z.of_nat (length bs)) (size s)) as [_|C];
    [|lia].
  cbn [andb]. rewrite Hpre, Hpost, <- Hb.
  destruct s' as [b c]. cbn [bytes capacity]. reflexivity.
Qed.

Lemma count_field_prefix w h (l tail : list byte) :
  0 <= h -> 0 <= w ->
  h + w <= Z.of_nat (length l) ->
  firstn (Z.to_nat w) (skipn (Z.to_nat h) (l ++ tail))
  = firstn (Z.to_nat w) (skipn (Z.to_nat h) l).
Proof.
  intros Hh Hw Hl.
  rewrite skipn_app, firstn_app, length_skipn.
  replace (Z.to_nat w - (length l - Z.to_nat h))%nat with O by lia.
  cbn [firstn]. apply app_nil_r.
Qed.

(** ** What [allocate] does to the file *)

Lemma allocate_file w m n :
  file_ (snd (allocate w m n))
  = snd (reserve (file_ m) (required_size w m n)).
Proof.
  rewrite allocate_unfold.
  destruct (fst (reserve _ _)); reflexivity.
Qed.

Lemma allocate_geometry w m n :
  header_size_ (snd (allocate w m n)) = header_size_ m
  /\ record_size_ (snd (allocate w m n)) = record_size_ m.
Proof.
  rewrite allocate_unfold.
  destruct (fst (reserve _ _)); split; reflexivity.
Qed.

Lemma required_size_exact w m n :
  well_formed w m = true ->
  0 <= n ->
  record_count_ m + n < 2 ^ (8 * w) ->
  header_size_ m + w + (record_count_ m + n) * record_size_ m < 2 ^ 64 ->
  required_size w m n
  = header_size_ m + w + (record_count_ m + n) * record_size_ m.
Proof.
  intros Hwf Hn Hl Hb.
  destruct (well_formed_elim w m Hwf) as (Hw & Hh & Hr & Hc & _).
  unfold required_size.
  assert (Hsum : 0 <= record_count_ m + n < 2 ^ (8 * w)) by lia.
  rewrite (to_size_small (record_count_ m + n))
    by (apply (link_range_size w); assumption).
  rewrite to_link_small by exact Hsum.
  assert (0 <= (record_count_ m + n) * record_size_ m) by nia.
  rewrite link_to_position_exact by lia.
  rewrite to_size_small by lia. lia.
Qed.

(** X1: a successful [allocate(n)] whose sizes are within the integer
    ranges leaves a well-formed manager whose file covers the header, the
    count field and all [count()] records, and never shortens the file. *)
Theorem allocate_covers_records (w : Z) (m : record_manager) (n : Z) :
  well_formed w m = true ->
  0 <= n ->
  count m + n < 2 ^ (8 * w) ->
  header_size_ m + w + (count m + n) * record_size_ m < 2 ^ 64 ->
  fst (reserve (file_ m) (required_size w m n)) = true ->
  well_formed w (snd (allocate w m n)) = true
  /\ records_in_file w (snd (allocate w m n))
  /\ size (file_ m) <= size (file_ (snd (allocate w m n))).
Proof.
  unfold count. intros Hwf Hn Hl Hb Hres.
  destruct (well_formed_elim w m Hwf) as (Hw & Hh & Hr & Hc & Hs).
  destruct (allocate_accepted w m n Hwf Hn Hl Hres) as (m' & Ha & Hc' & Hwf').
  pose proof (allocate_file w m n) as Hfile.
  pose proof (allocate_geometry w m n) as [Hgh Hgr].
  rewrite Ha in *. cbn [snd] in *.
  split; [exact Hwf'|].
  destruct (reserve_true_size (file_ m) (required_size w m n)) as [Hsz _];
    [apply required_size_range|exact Hres|].
  destruct (reserve_grows (file_ m) (required_size w m n)) as [Hg _]; [lia|].
  pose proof (required_size_exact w m n Hwf Hn Hl Hb) as Hreq.
  unfold records_in_file. rewrite Hfile, Hgh, Hgr, Hc'. lia.
Qed.

Lemma allocate_covers_records_example :
  well_formed 4 (snd (allocate 4 store32 3)) = true
  /\ records_in_file 4 (snd (allocate 4 store32 3))
  /\ size (file_ store32) <= size (file_ (snd (allocate 4 store32 3))).
Proof.
  apply (allocate_covers_records 4 store32 3).
  - reflexivity.
  - lia.
  - vm_compute. reflexivity.
  - vm_compute. reflexivity.
  - vm_compute. reflexivity.
Defined.

(** ** Durability *)

Lemma allocate_file_grows w m n :
  well_formed w m = true ->
  size (file_ m) <= size (file_ (snd (allocate w m n))) < 2 ^ 64
  /\ exists tail,
       bytes (file_ (snd (allocate w m n))) = bytes (file_ m) ++ tail.
Proof.
  intros Hwf.
  destruct (well_formed_elim w m Hwf) as (_ & _ & _ & _ & Hs).
  rewrite allocate_file.
  destruct (reserve_grows (file_ m) (required_size w m n)) as (Hg & _ & Ht);
    [lia|].
  split; [lia|exact Ht].
Qed.

(** X2: [allocate] never writes the count field nor any byte that the file
    already holds, whatever the requested count and whether or not the
    storage grows: the persisted count is as before, and a manager reopened
    by [start()] before any [commit()] loads the count persisted before
    the allocation. *)
Theorem allocate_keeps_persisted_count (w : Z) (m : record_manager) (n : Z) :
  well_formed w m = true ->
  header_size_ m + w <= size (file_ m) ->
  (exists tail,
     bytes (file_ (snd (allocate w m n))) = bytes (file_ m) ++ tail)
  /\ persisted_count w (snd (allocate w m n)) = persisted_count w m
  /\ exists b m2,
       start w (reopen (snd (allocate w m n))) = Ok (b, m2)
       /\ count m2 = persisted_count w m.
Proof.
  intros Hwf Hsz.
  destruct (well_formed_elim w m Hwf) as (Hw & Hh & _ & _ & Hs).
  destruct (allocate_file_grows w m n Hwf) as (Hg & tail & Ht).
  pose proof (allocate_geometry w m n) as [Hgh Hgr].
  assert (Hp : persisted_count w (snd (allocate w m n))
               = persisted_count w m).
  { unfold persisted_count, count_field. rewrite Hgh, Ht.
    rewrite count_field_prefix; [reflexivity|lia|lia|].
    unfold size in Hsz. lia. }
  split; [exists tail; exact Ht|]. split; [exact Hp|].
  assert (Hin : field_in_file w (reopen (snd (allocate w m n)))).
  { unfold field_in_file, reopen. cbn [construct header_size_ file_].
    rewrite Hgh. lia. }
  rewrite (start_reads w _ Hw Hin).
  eexists _, _. split; [reflexivity|].
  unfold count. cbn [with_count record_count_]. exact Hp.
Qed.

Lemma allocate_keeps_persisted_count_example :
  (exists tail,
     bytes (file_ (snd (allocate 4 store32 3))) = bytes (file_ store32) ++ tail)
  /\ persisted_count 4 (snd (allocate 4 store32 3)) = persisted_count 4 store32
  /\ exists b m2,
       start 4 (reopen (snd (allocate 4 store32 3))) = Ok (b, m2)
       /\ count m2 = persisted_count 4 store32.
Proof.
  apply (allocate_keeps_persisted_count 4 store32 3).
  - reflexivity.
  - vm_compute. discriminate.
Defined.

(** X3: after a successful [allocate(n)] within the range of [Link],
    [commit()] succeeds, and a manager reopened by [start()] over the
    committed file loads the count after the allocation. *)
Theorem allocate_commit_reopen (w : Z) (m : record_manager) (n : Z) :
  well_formed w m = true ->
  header_size_ m + w <= size (file_ m) ->
  0 <= n ->
  count m + n < 2 ^ (8 * w) ->
  fst (reserve (file_ m) (required_size w m n)) = true ->
  exists m1 b m2,
    commit w (snd (allocate w m n)) = Ok m1
    /\ start w (reopen m1) = Ok (b, m2)
    /\ count m2 = count m + n.
Proof.
  unfold count. intros Hwf Hsz Hn Hl Hres.
  destruct (well_formed_elim w m Hwf) as (Hw & Hh & _ & _ & Hs).
  destruct (allocate_file_grows w m n Hwf) as (Hg & _).
  pose proof (allocate_geometry w m n) as [Hgh _].
  destruct (allocate_accepted w m n Hwf Hn Hl Hres) as (m' & Ha & Hc & Hwf').
  rewrite Ha in *. cbn [snd] in *.
  destruct (commit_stores w m' Hwf') as (f & Hcm & _ & Hp & Hsf); [lia|].
  exists (with_file m' f).
  assert (Hin : field_in_file w (reopen (with_file m' f))).
  { unfold field_in_file, reopen.
    cbn [construct with_file header_size_ file_]. lia. }
  rewrite (start_reads w _ Hw Hin).
  eexists _, _. split; [exact Hcm|]. split; [reflexivity|].
  unfold count. cbn [with_count record_count_].
  change (persisted_count w (reopen (with_file m' f)))
    with (persisted_count w (with_file m' f)).
  rewrite Hp. exact Hc.
Qed.

Lemma allocate_commit_reopen_example :
  exists m1 b m2,
    commit 4 (snd (allocate 4 store32 3)) = Ok m1
    /\ start 4 (reopen m1) = Ok (b, m2)
    /\ count m2 = count store32 + 3.
Proof.
  apply (allocate_commit_reopen 4 store32 3).
  - reflexivity.
  - vm_compute. discriminate.
  - lia.
  - vm_compute. reflexivity.
  - vm_compute. reflexivity.
Defined.

(** ** What [commit] and [start] touch *)

Lemma write_count_inv w m m1 :
  write_count w m = Ok m1 ->
  exists f,
    m1 = with_file m f
    /\ (to_size (header_size_ m + w) <=? size (file_ m)) = true
    /\ store (file_ m) (header_size_ m)
         (write_little_endian (Z.to_nat w) (record_count_ m)) = Ok f.
Proof.
  unfold write_count.
  destruct (to_size (header_size_ m + w) <=? size (file_ m)) eqn:Ha;
    cbn [BITCOIN_ASSERT bind]; [|discriminate].
  cbn [access buffer]. rewrite Z.add_0_l.
  destruct (store _ _ _) as [f|] eqn:Hs; cbn [bind]; [|discriminate].
  intros E. injection E as <-. exists f. repeat split.
Qed.

(** X4: a [commit()] that returns has written the count field only: the
    header bytes before it and the record bytes after it are as they were,
    the file has the same size, and the cached count and the geometry are
    unchanged. *)
Theorem commit_writes_count_field_only
    (w : Z) (m m1 : record_manager) :
  commit w m = Ok m1 ->
  firstn (Z.to_nat (header_size_ m)) (bytes (file_ m1))
  = firstn (Z.to_nat (header_size_ m)) (bytes (file_ m))
  /\ skipn (Z.to_nat (header_size_ m) + Z.to_nat w) (bytes (file_ m1))
     = skipn (Z.to_nat (header_size_ m) + Z.to_nat w) (bytes (file_ m))
  /\ size (file_ m1) = size (file_ m)
  /\ count m1 = count m
  /\ header_size_ m1 = header_size_ m
  /\ record_size_ m1 = record_size_ m.
Proof.
  unfold commit. intros E.
  destruct (write_count_inv w m m1 E) as (f & -> & _ & Hs).
  destruct (store_frame _ _ _ _ Hs) as (_ & _ & _ & Hpre & Hpost & Hsz & _).
  rewrite write_little_endian_length in Hpost.
  cbn [with_file file_ header_size_ record_size_]. unfold count.
  cbn [with_file record_count_]. repeat split; assumption.
Qed.

Lemma commit_writes_count_field_only_example :
  firstn (Z.to_nat (header_size_ grown32))
         (bytes (file_ (with_file grown32 committed32)))
  = firstn (Z.to_nat (header_size_ grown32)) (bytes (file_ grown32))
  /\ skipn (Z.to_nat (header_size_ grown32) + Z.to_nat 4)
           (bytes (file_ (with_file grown32 committed32)))
     = skipn (Z.to_nat (header_size_ grown32) + Z.to_nat 4)
             (bytes (file_ grown32))
  /\ size (file_ (with_file grown32 committed32)) = size (file_ grown32)
  /\ count (with_file grown32 committed32) = count grown32
  /\ header_size_ (with_file grown32 committed32) = header_size_ grown32
  /\ record_size_ (with_file grown32 committed32) = record_size_ grown32.
Proof.
  apply (commit_writes_count_field_only 4 grown32
           (with_file grown32 committed32)).
  vm_compute. reflexivity.
Defined.

(** X5: [commit()] is idempotent: committing again right after a
    [commit()] that returned succeeds and leaves the manager and every
    byte of the file as the first one left them. *)
Theorem commit_idempotent (w : Z) (m m1 : record_manager) :
  commit w m = Ok m1 -> commit w m1 = Ok m1.
Proof.
  unfold commit. intros E.
  destruct (write_count_inv w m m1 E) as (f & -> & Ha & Hs).
  destruct (store_frame _ _ _ _ Hs) as (_ & _ & _ & _ & _ & Hsz & _).
  unfold write_count. cbn [with_file file_ header_size_ record_count_].
  rewrite Hsz, Ha. cbn [BITCOIN_ASSERT bind access buffer].
  rewrite Z.add_0_l, (store_again _ _ _ _ Hs). reflexivity.
Qed.

Lemma commit_idempotent_example :
  commit 4 (with_file grown32 committed32)
  = Ok (with_file grown32 committed32).
Proof.
  apply (commit_idempotent 4 grown32). vm_compute. reflexivity.
Defined.

(** X6: on a file too short to hold the count field, [start()] and
    [commit()] stop in the assertion of [read_count] and [write_count];
    [start()] does not return false there. *)
Theorem short_file_asserts (w : Z) (m : record_manager) :
  0 <= header_size_ m ->
  size (file_ m) < header_size_ m + w < 2 ^ 64 ->
  start w m = Fault assertion_failure
  /\ commit w m = Fault assertion_failure.
Proof.
  intros Hh Hs.
  assert (Ha : (to_size (header_size_ m + w) <=? size (file_ m)) = false).
  { rewrite to_size_small by (unfold size in *; lia).
    apply Z.leb_gt. lia. }
  unfold start, commit, read_count, write_count. rewrite Ha.
  split; reflexivity.
Qed.

Lemma short_file_asserts_example :
  start 4 (construct {| bytes := zeros 3; capacity := 1000 |} 0 10)
  = Fault assertion_failure
  /\ commit 4 (construct {| bytes := zeros 3; capacity := 1000 |} 0 10)
     = Fault assertion_failure.
Proof.
  apply (short_file_asserts 4
           (construct {| bytes := zeros 3; capacity := 1000 |} 0 10)).
  - vm_compute. discriminate.
  - vm_compute. split; reflexivity.
Defined.

(** X7: a [start()] that returns has changed the cached count only, the
    file and the geometry are as before, and a second [start()] right
    after it returns the same answer and the same manager. *)
Theorem start_idempotent (w : Z) (m m1 : record_manager) (b : bool) :
  start w m = Ok (b, m1) ->
  file_ m1 = file_ m
  /\ header_size_ m1 = header_size_ m
  /\ record_size_ m1 = record_size_ m
  /\ count m1 = persisted_count w m
  /\ start w m1 = Ok (b, m1).
Proof.
  unfold start, read_count.
  destruct (to_size (header_size_ m + w) <=? size (file_ m)) eqn:Ha;
    cbn [BITCOIN_ASSERT bind]; [|discriminate].
  cbn [access buffer]. rewrite Z.add_0_l.
  destruct (load (file_ m) (header_size_ m) (Z.to_nat w)) as [raw|] eqn:Hl;
    cbn [bind]; [|discriminate].
  intros E. injection E as Eb <-.
  cbn [with_count file_ header_size_ record_size_ record_count_] in *.
  unfold count. cbn [with_count record_count_].
  assert (Hraw : raw = count_field w m).
  { revert Hl. unfold load, count_field.
    destruct ((0 <=? header_size_ m)
              && (header_size_ m + Z.of_nat (Z.to_nat w) <=? size (file_ m)));
      [|discriminate].
    intros E. now injection E as <-. }
  repeat split.
  - unfold persisted_count. now rewrite Hraw.
  - rewrite Ha. cbn [BITCOIN_ASSERT bind]. rewrite Z.add_0_l, Hl.
    cbn [bind with_count file_ header_size_ record_size_ record_count_].
    unfold link_to_position in *. cbn [with_count record_size_] in *.
    rewrite Eb. reflexivity.
Qed.

Lemma start_idempotent_example :
  file_ (with_count (construct committed32 0 10) 3)
  = file_ (construct committed32 0 10)
  /\ header_size_ (with_count (construct committed32 0 10) 3) = 0
  /\ record_size_ (with_count (construct committed32 0 10) 3) = 10
  /\ count (with_count (construct committed32 0 10) 3)
     = persisted_count 4 (construct committed32 0 10)
  /\ start 4 (with_count (construct committed32 0 10) 3)
     = Ok (true, with_count (construct committed32 0 10) 3).
Proof.
  apply (start_idempotent 4 (construct committed32 0 10)).
  vm_compute. reflexivity.
Defined.

(** ** Rollback *)

(** X8: [set_count(v)] with [0 <= v <= count()] keeps the size invariant
    and leaves the persisted count as it is; a following [commit()]
    succeeds, and a manager reopened by [start()] then loads [v]. *)
Theorem rollback_commit_reopen (w : Z) (m : record_manager) (v : Z) :
  well_formed w m = true ->
  header_size_ m + w <= size (file_ m) ->
  0 <= v <= count m ->
  exists m1 m2 b m3,
    set_count m v = Ok m1
    /\ (records_in_file w m -> records_in_file w m1)
    /\ persisted_count w m1 = persisted_count w m
    /\ commit w m1 = Ok m2
    /\ start w (reopen m2) = Ok (b, m3)
    /\ count m3 = v.
Proof.
  unfold count. intros Hwf Hsz Hv.
  destruct (well_formed_elim w m Hwf) as (Hw & Hh & Hr & Hc & Hs).
  assert (Hwf1 : well_formed w (with_count m v) = true).
  { apply well_formed_intro;
      cbn [with_count header_size_ record_size_ record_count_ file_];
      try assumption; lia. }
  destruct (commit_stores w (with_count m v) Hwf1) as (f & Hcm & _ & Hp & Hsf).
  { cbn [with_count header_size_ file_]. exact Hsz. }
  exists (with_count m v), (with_file (with_count m v) f).
  assert (Hin : field_in_file w (reopen (with_file (with_count m v) f))).
  { unfold field_in_file, reopen.
    cbn [construct with_file with_count header_size_ file_] in *. lia. }
  rewrite (start_reads w _ Hw Hin).
  eexists _, _. split.
  { unfold set_count.
    destruct (Z.leb_spec v (record_count_ m)) as [_|C]; [reflexivity|lia]. }
  split.
  { unfold records_in_file.
    cbn [with_count header_size_ record_size_ record_count_ file_]. nia. }
  split; [reflexivity|]. split; [exact Hcm|]. split; [reflexivity|].
  unfold count. cbn [with_count record_count_].
  change (persisted_count w (reopen (with_file (with_count m v) f)))
    with (persisted_count w (with_file (with_count m v) f)).
  exact Hp.
Qed.

Lemma rollback_commit_reopen_example :
  exists m1 m2 b m3,
    set_count grown32 1 = Ok m1
    /\ (records_in_file 4 grown32 -> records_in_file 4 m1)
    /\ persisted_count 4 m1 = persisted_count 4 grown32
    /\ commit 4 m1 = Ok m2
    /\ start 4 (reopen m2) = Ok (b, m3)
    /\ count m3 = 1.
Proof.
  apply (rollback_commit_reopen 4 grown32 1).
  - reflexivity.
  - vm_compute. discriminate.
  - vm_compute. split; discriminate.
Defined.

(** ** Records *)

Lemma covered_link_in_range w m link :
  well_formed w m = true ->
  records_in_file w m ->
  0 <= link < record_count_ m ->
  0 <= link * record_size_ m
  /\ header_size_ m + w + (link + 1) * record_size_ m <= size (file_ m)
  /\ size (file_ m) < 2 ^ 64.
Proof.
  unfold records_in_file. intros Hwf Hin Hl.
  destruct (well_formed_elim w m Hwf) as (Hw & Hh & Hr & Hc & Hs).
  split; [nia|]. split; [nia|lia].
Qed.

(** X9: when the file covers the records, the accessor of every valid
    link [L] in [[0, count())] lies after the count field, and the
    [record_size] bytes of the record end inside the file. *)
Theorem get_inside_file (w : Z) (m : record_manager) (link : Z) :
  well_formed w m = true ->
  records_in_file w m ->
  0 <= link < count m ->
  header_size_ m + w <= buffer (get w m link)
  /\ buffer (get w m link) + record_size_ m <= size (file_ m).
Proof.
  unfold count. intros Hwf Hin Hl.
  destruct (well_formed_elim w m Hwf) as (Hw & Hh & Hr & _ & _).
  destruct (covered_link_in_range w m link Hwf Hin Hl) as (H0 & H1 & H2).
  rewrite get_exact by (try assumption; lia).
  cbn [buffer]. lia.
Qed.

Lemma get_inside_file_example :
  header_size_ grown32 + 4 <= buffer (get 4 grown32 2)
  /\ buffer (get 4 grown32 2) + record_size_ grown32 <= size (file_ grown32).
Proof.
  apply (get_inside_file 4 grown32 2).
  - reflexivity.
  - vm_compute. discriminate.
  - vm_compute. split; [discriminate|reflexivity].
Defined.

(** X10: when the file covers the records, the records of two valid
    links do not overlap: the record of the smaller link ends at or before
    the start of the record of the larger one. *)
Theorem records_disjoint (w : Z) (m : record_manager) (link1 link2 : Z) :
  well_formed w m = true ->
  records_in_file w m ->
  0 <= link1 ->
  link1 < link2 ->
  link2 < count m ->
  buffer (get w m link1) + record_size_ m <= buffer (get w m link2).
Proof.
  unfold count. intros Hwf Hin H1 H12 H2.
  destruct (well_formed_elim w m Hwf) as (Hw & Hh & Hr & _ & _).
  destruct (covered_link_in_range w m link1 Hwf Hin) as (Ha & Hb & Hc);
    [lia|].
  destruct (covered_link_in_range w m link2 Hwf Hin) as (Ha' & Hb' & _);
    [lia|].
  rewrite !get_exact by (try assumption; lia).
  cbn [buffer]. nia.
Qed.

Lemma records_disjoint_example :
  buffer (get 4 grown32 0) + record_size_ grown32 <= buffer (get 4 grown32 2).
Proof.
  apply (records_disjoint 4 grown32 0 2).
  - reflexivity.
  - vm_compute. discriminate.
  - lia.
  - lia.
  - vm_compute. reflexivity.
Defined.

(** X11: when the file covers the records and the record size is not
    zero, [position_to_link] maps every position inside the record of a
    valid link [L], not only its first byte, back to [L]. *)
Theorem position_inside_record
    (w : Z) (m : record_manager) (link offset : Z) :
  well_formed w m = true ->
  records_in_file w m ->
  0 <= link < count m ->
  0 <= offset < record_size_ m ->
  position_to_link w m (link_to_position w m link + offset) = Ok link.
Proof.
  unfold count. intros Hwf Hin Hl Ho.
  destruct (well_formed_elim w m Hwf) as (Hw & Hh & Hr & Hc & _).
  destruct (covered_link_in_range w m link Hwf Hin Hl) as (H0 & H1 & H2).
  rewrite link_to_position_exact by lia.
  unfold position_to_link.
  destruct (Z.eqb_spec (record_size_ m) 0) as [C|_]; [lia|].
  replace (w + link * record_size_ m + offset - w)
    with (link * record_size_ m + offset) by lia.
  rewrite to_size_small by lia.
  rewrite Z.div_add_l by lia.
  rewrite Z.div_small by lia.
  rewrite Z.add_0_r, to_link_small by lia. reflexivity.
Qed.

Lemma position_inside_record_example :
  position_to_link 4 grown32 (link_to_position 4 grown32 2 + 9) = Ok 2.
Proof.
  apply (position_inside_record 4 grown32 2 9).
  - reflexivity.
  - vm_compute. discriminate.
  - vm_compute. split; [discriminate|reflexivity].
  - vm_compute. split; [discriminate|reflexivity].
Defined.

(** ** From creation through a series of allocations *)

Lemma resize_inv s n s' :
  0 <= n ->
  resize s n = Ok s' ->
  size s' = n /\ n <= capacity s /\ capacity s' = capacity s.
Proof.
  intros Hn. unfold resize.
  destruct (Z.leb_spec n (capacity s)) as [C|_]; [|discriminate].
  intros E. injection E as <-. unfold size. cbn [bytes capacity].
  rewrite fit_length. lia.
Qed.

Lemma create_true_sound w m0 m :
  well_formed w m0 = true ->
  create w m0 = Ok (true, m) ->
  well_formed w m = true
  /\ records_in_file w m
  /\ record_count_ m = 0
  /\ header_size_ m = header_size_ m0
  /\ record_size_ m = record_size_ m0.
Proof.
  intros Hwf.
  destruct (well_formed_elim w m0 Hwf) as (Hw & Hh & Hr & Hc & Hs).
  unfold create.
  destruct (Z.eqb_spec (record_count_ m0) 0) as [Hz|_]; cbn [negb];
    [|discriminate].
  destruct (resize _ _) as [f|] eqn:Hres; cbn [bind]; [|discriminate].
  destruct (write_count w (with_file m0 f)) as [m1|] eqn:Hwr; cbn [bind];
    [|discriminate].
  intros E. injection E as <-.
  apply resize_inv in Hres; [|apply to_size_range].
  destruct Hres as (Hsz & Hle & Hcap).
  destruct (write_count_inv _ _ _ Hwr) as (f' & -> & _ & Hst).
  cbn [with_file file_ header_size_ record_count_] in Hst.
  destruct (store_frame _ _ _ _ Hst) as (_ & Hfit & _ & _ & _ & Hsz' & Hcap').
  rewrite write_little_endian_length in Hfit.
  pose proof (to_size_range
                (header_size_ m0 + link_to_position w m0 (record_count_ m0))).
  unfold records_in_file.
  cbn [with_file file_ header_size_ record_size_ record_count_].
  split; [|split; [rewrite Hz; lia|repeat split; assumption]].
  apply well_formed_intro;
    cbn [with_file file_ header_size_ record_size_ record_count_];
    try assumption; lia.
Qed.

Lemma allocate_all_sound w counts :
  forall m,
    well_formed w m = true ->
    records_in_file w m ->
    Forall (fun n => 0 <= n) counts ->
    record_count_ m + total counts < 2 ^ (8 * w) ->
    header_size_ m + w + (record_count_ m + total counts) * record_size_ m
    < 2 ^ 64 ->
    all_reserved w m counts = true ->
    well_formed w (snd (allocate_all w m counts)) = true
    /\ records_in_file w (snd (allocate_all w m counts))
    /\ record_count_ (snd (allocate_all w m counts))
       = record_count_ m + total counts
    /\ header_size_ (snd (allocate_all w m counts)) = header_size_ m
    /\ record_size_ (snd (allocate_all w m counts)) = record_size_ m.
Proof.
  induction counts as [|n rest IH]; intros m Hwf Hin Hpos Hl Hb Hres.
  - cbn [allocate_all snd total fold_right]. rewrite Z.add_0_r.
    repeat split; assumption.
  - inversion Hpos as [|? ? Hn Hrest]; subst.
    cbn [all_reserved] in Hres. apply andb_prop in Hres.
    destruct Hres as [Hfirst Hnext].
    pose proof (total_nonneg rest Hrest) as Ht.
    change (total (n :: rest)) with (n + total rest) in *.
    destruct (well_formed_elim w m Hwf) as (Hw & Hh & Hr & Hc & Hs).
    assert (Hl1 : record_count_ m + n < 2 ^ (8 * w)) by lia.
    assert (Hb1 : header_size_ m + w + (record_count_ m + n) * record_size_ m
                  < 2 ^ 64) by nia.
    destruct (allocate_accepted w m n Hwf Hn Hl1 Hfirst)
      as (m1 & Ha & Hc1 & Hwf1).
    pose proof (allocate_file w m n) as Hfile.
    pose proof (allocate_geometry w m n) as [Hgh Hgr].
    destruct (reserve_true_size (file_ m) (required_size w m n))
      as [Hsz _]; [apply required_size_range|exact Hfirst|].
    pose proof (required_size_exact w m n Hwf Hn Hl1 Hb1) as Hreq.
    cbn [allocate_all]. rewrite Ha in *. cbn [snd] in *.
    assert (Hin1 : records_in_file w m1).
    { unfold records_in_file. rewrite Hfile, Hgh, Hgr, Hc1. lia. }
    specialize (IH m1 Hwf1 Hin1 Hrest).
    rewrite Hc1, Hgh, Hgr in IH.
    destruct (allocate_all w m1 rest) as [trace m2]. cbn [snd] in *.
    rewrite Z.add_assoc in *. apply IH; [lia|exact Hb|exact Hnext].
Qed.

(** X12: after [create()] on a well-formed manager has returned true and
    a series of [allocate] calls within the integer ranges has been
    accepted by the storage, the manager is well formed, [count()] is the
    sum of the requested counts, and the file covers the header, the count
    field and all [count()] records. *)
Theorem create_allocate_all_covers
    (w : Z) (m0 m : record_manager) (counts : list Z) :
  well_formed w m0 = true ->
  create w m0 = Ok (true, m) ->
  Forall (fun n => 0 <= n) counts ->
  total counts < 2 ^ (8 * w) ->
  header_size_ m0 + w + total counts * record_size_ m0 < 2 ^ 64 ->
  all_reserved w m counts = true ->
  well_formed w (snd (allocate_all w m counts)) = true
  /\ count (snd (allocate_all w m counts)) = total counts
  /\ records_in_file w (snd (allocate_all w m counts)).
Proof.
  intros Hwf Hcr Hpos Hl Hb Hres.
  destruct (create_true_sound w m0 m Hwf Hcr) as (Hwf1 & Hin & Hz & Hh & Hr).
  destruct (allocate_all_sound w counts m Hwf1 Hin Hpos)
    as (Hwf2 & Hin2 & Hc2 & _).
  - rewrite Hz. exact Hl.
  - rewrite Hz, Hh, Hr. exact Hb.
  - exact Hres.
  - unfold count. rewrite Hc2, Hz. repeat split; assumption.
Qed.

Lemma create_allocate_all_covers_example :
  well_formed 4 (snd (allocate_all 4 store32 [3; 0; 5])) = true
  /\ count (snd (allocate_all 4 store32 [3; 0; 5])) = total [3; 0; 5]
  /\ records_in_file 4 (snd (allocate_all 4 store32 [3; 0; 5])).
Proof.
  apply (create_allocate_all_covers 4
           (construct {| bytes := []; capacity := 1000 |} 0 10)
           store32 [3; 0; 5]).
  - reflexivity.
  - vm_compute. reflexivity.
  - repeat constructor; lia.
  - vm_compute. reflexivity.
  - vm_compute. reflexivity.
  - vm_compute. reflexivity.
Defined.

(** ** The shard *)

Lemma shard_reserve_grown file size_ :
  size file < size_ <= capacity file ->
  exists f,
    hdb_shard.reserve file size_ = Ok f
    /\ size f = size_
    /\ capacity f = capacity file
    /\ exists tail, bytes f = bytes file ++ tail.
Proof.
  intros [H0 H1]. unfold hdb_shard.reserve, hdb_shard.mmfile_resize.
  destruct (Z.ltb_spec (size file) size_) as [_|C]; [|lia].
  destruct (Z.leb_spec size_ (capacity file)) as [_|C]; [|lia].
  cbn [BITCOIN_ASSERT bind]. eexists. split; [reflexivity|].
  unfold size in *. cbn [bytes capacity]. rewrite fit_length.
  split; [lia|]. split; [reflexivity|].
  eexists. apply fit_extends. lia.
Qed.

Lemma shard_reserve_not_larger file size_ :
  size_ <= size file ->
  hdb_shard.reserve file size_ = Fault assertion_failure.
Proof.
  intros H. unfold hdb_shard.reserve.
  destruct (Z.ltb_spec (size file) size_) as [C|_]; [lia|reflexivity].
Qed.

(** X13: [hdb_shard::reserve(size)] only ever grows the file.  A size
    that is not larger than the file stops in the first assertion, a size
    that the file refuses stops in the second, and otherwise the file has
    exactly the requested size and still starts with the bytes it held. *)
Theorem shard_reserve_outcomes (file : storage) (size_ : Z) :
  (size_ <= size file ->
   hdb_shard.reserve file size_ = Fault assertion_failure)
  /\ (size file < size_ ->
      capacity file < size_ ->
      hdb_shard.reserve file size_ = Fault assertion_failure)
  /\ (size file < size_ ->
      size_ <= capacity file ->
      exists f,
        hdb_shard.reserve file size_ = Ok f
        /\ size f = size_
        /\ exists tail, bytes f = bytes file ++ tail).
Proof.
  split; [apply shard_reserve_not_larger|]. split.
  - intros H0 H1. unfold hdb_shard.reserve, hdb_shard.mmfile_resize.
    destruct (Z.ltb_spec (size file) size_) as [_|C]; [|lia].
    destruct (Z.leb_spec size_ (capacity file)) as [C|_]; [lia|].
    reflexivity.
  - intros H0 H1.
    destruct (shard_reserve_grown file size_) as (f & Hf & Hs & _ & Ht);
      [lia|].
    exists f. repeat split; assumption.
Qed.

Lemma shard_reserve_outcomes_example :
  hdb_shard.reserve (file_ grown32) 34 = Fault assertion_failure
  /\ hdb_shard.reserve (file_ grown32) 2000 = Fault assertion_failure
  /\ exists f,
       hdb_shard.reserve (file_ grown32) 40 = Ok f
       /\ size f = 40
       /\ exists tail, bytes f = bytes (file_ grown32) ++ tail.
Proof.
  split; [|split].
  - apply (proj1 (shard_reserve_outcomes (file_ grown32) 34)).
    vm_compute. discriminate.
  - apply (proj1 (proj2 (shard_reserve_outcomes (file_ grown32) 2000))).
    + vm_compute. reflexivity.
    + vm_compute. reflexivity.
  - apply (proj2 (proj2 (shard_reserve_outcomes (file_ grown32) 40))).
    + vm_compute. reflexivity.
    + vm_compute. discriminate.
Defined.

(** X14: [hdb_shard::initialize_new()] cannot be repeated.  When it
    returns, the file has exactly [8 + 8 * shard_max_entries] bytes, and a
    second [initialize_new()] on that file stops in the assertion of
    [reserve], as the requested size is no longer larger than the file. *)
Theorem initialize_new_once (shard_max_entries : Z) (file f : storage) :
  0 <= shard_max_entries ->
  8 + 8 * shard_max_entries < 2 ^ 64 ->
  hdb_shard.initialize_new shard_max_entries file = Ok f ->
  size f = 8 + 8 * shard_max_entries
  /\ size file < size f
  /\ hdb_shard.initialize_new shard_max_entries f = Fault assertion_failure.
Proof.
  intros Hn Hb. unfold hdb_shard.initialize_new.
  rewrite (to_size_small (8 * shard_max_entries)) by lia.
  rewrite to_size_small by lia.
  set (total_size := 8 + 8 * shard_max_entries) in *.
  intros E.
  destruct (Z_le_gt_dec total_size (size file)) as [C|C].
  { rewrite shard_reserve_not_larger in E by exact C. discriminate. }
  destruct (Z_le_gt_dec total_size (capacity file)) as [C'|C'].
  - destruct (shard_reserve_grown file total_size) as (f' & Hf & Hs & _);
      [lia|].
    rewrite Hf in E. injection E as <-.
    split; [exact Hs|]. split; [lia|].
    apply shard_reserve_not_larger. lia.
  - exfalso. revert E. unfold hdb_shard.reserve, hdb_shard.mmfile_resize.
    destruct (Z.ltb_spec (size file) total_size) as [_|C'']; [|lia].
    destruct (Z.leb_spec total_size (capacity file)) as [C''|_]; [lia|].
    discriminate.
Qed.

Lemma initialize_new_once_example :
  size {| bytes := zeros 88; capacity := 1000 |} = 8 + 8 * 10
  /\ size {| bytes := []; capacity := 1000 |}
     < size {| bytes := zeros 88; capacity := 1000 |}
  /\ hdb_shard.initialize_new 10 {| bytes := zeros 88; capacity := 1000 |}
     = Fault assertion_failure.
Proof.
  apply (initialize_new_once 10 {| bytes := []; capacity := 1000 |}).
  - lia.
  - vm_compute. reflexivity.
  - vm_compute. reflexivity.
Defined.
